(** * brozzler/browser.py: browser pool, DevTools session driver, chrome supervisor

    A shallow embedding of [brozzler/browser.py] and the properties of its
    three classes, [BrowserPool], [Browser] and [Chrome].

    Conventions of the embedding.
    - Python objects held in sets are references ([ref]); the objects
      themselves live in a heap ([gmap ref Browser]).
    - [time.time()] is a reading of a clock in milliseconds ([Z]); the value
      [HARD_TIMEOUT_SECONDS = 20 * 60] and the other timeouts of the source
      are compared after multiplication by 1000.
    - What the operating system, the network, the websocket reader thread and
      the behavior engine do is an input: a list of observations that the
      loops of the source consume one element per iteration.  A loop that
      runs out of observations is still running ([Running]).
    - Calls of callbacks, DevTools commands and signals are recorded in a
      trace, in the order in which the source performs them. *)

From Stdlib Require Import ZArith Ascii String.
From stdpp Require Import gmap strings list fin_maps pretty.

Local Open Scope Z_scope.

(** Python object references. *)
Abbreviation ref := nat.

(** ** Python's [str.split(sep)] with a single-character separator

    [cur] accumulates, reversed, the characters of the field being read. *)

Fixpoint split_acc (sep : ascii) (cur : string) (s : string) : list string :=
  match s with
  | EmptyString => [String.rev cur]
  | String c s' =>
      if decide (c = sep) then String.rev cur :: split_acc sep EmptyString s'
      else split_acc sep (String c cur) s'
  end.

Definition split (sep : ascii) (s : string) : list string :=
  split_acc sep EmptyString s.

(** [" ".join(l)], the inverse used by the outlink expression. *)
Fixpoint join (sep : ascii) (l : list string) : string :=
  match l with
  | [] => EmptyString
  | [x] => x
  | x :: l' => x +:+ String sep (join sep l')
  end.

Definition space : ascii := " "%char.

(** [True] when the character does not occur in the string. *)
Fixpoint free_of (c : ascii) (s : string) : Prop :=
  match s with
  | EmptyString => True
  | String a s' => a ≠ c ∧ free_of c s'
  end.

(** ** Outcomes of a call

    The exceptions the module raises or lets through, and the three ways a
    call can stand: it returned, it raised, or it is still in its loop
    because the observations given to it ended. *)

Inductive exn :=
| KeyError
| AttributeError
| TypeError
| OSError                 (* subprocess.Popen or tempfile failing *)
| BinasciiError
| StartupFailure          (* Exception("failed to retrieve ...") of Chrome.start *)
| BrowsingException
| BrowsingAborted.        (* a subclass of BrowsingException *)

Inductive result (A : Type) :=
| Done (a : A)
| Raise (e : exn)
| Running.

Global Instance exn_eq_dec : EqDecision exn.
Proof. solve_decision. Defined.

Arguments Done {A} a.
Arguments Raise {A} e.
Arguments Running {A}.

(** [isinstance(e, BrowsingException)] *)
Definition is_browsing_exception (e : exn) : bool :=
  match e with
  | BrowsingException | BrowsingAborted => true
  | _ => false
  end.

(** ** The operating system as seen by the program

    The calls that reach outside the interpreter, in the order in which they
    are made, and their effect on the directories that exist. *)

Inductive signal := SIGTERM | SIGKILL.

Inductive syscall :=
| Mkdtemp (dir : string)                  (* tempfile.TemporaryDirectory() *)
| MkdtempError                            (* the same, raising OSError *)
| Rmtree (dir : string)                   (* TemporaryDirectory.cleanup() *)
| Spawn (argv : list string) (home : string)   (* subprocess.Popen *)
| SpawnError (argv : list string) (home : string)   (* the same, raising OSError *)
| Signal (pid : Z) (s : signal)           (* Popen.terminate / Popen.kill *)
| Poll (pid : Z)
| Wait (pid : Z)
| Sleep                                   (* time.sleep(0.5) *)
| HttpGet (url : string).                 (* urllib.request.urlopen *)

Global Instance signal_eq_dec : EqDecision signal.
Proof. solve_decision. Defined.

Global Instance syscall_eq_dec : EqDecision syscall.
Proof. solve_decision. Defined.

(** [d] itself or a path below it. *)
Definition below (d p : string) : Prop :=
  p = d ∨ String.prefix (d +:+ "/") p = true.

Global Instance below_dec d p : Decision (below d p).
Proof. unfold below. apply _. Defined.

(** [strip_prefix p s] is [Some r] when [s = p ++ r]. *)
Fixpoint strip_prefix (p s : string) : option string :=
  match p, s with
  | EmptyString, _ => Some s
  | String a p', String b s' => if decide (a = b) then strip_prefix p' s' else None
  | String _ _, EmptyString => None
  end.

(** The profile directory named on a chrome command line, after the
    name of the program. *)
Definition profile_dir (argv : list string) : option string :=
  head (omap (strip_prefix "--user-data-dir=") (tail argv)).

(** Chrome creates its profile directory when it starts; the other calls
    that change the directories are those of [tempfile]. *)
Definition fs_step (c : syscall) (fs : gset string) : gset string :=
  match c with
  | Mkdtemp d => {[ d ]} ∪ fs
  | Rmtree d => filter (λ p, ¬ below d p) fs
  | Spawn argv _ =>
      match profile_dir argv with
      | Some d => {[ d ]} ∪ fs
      | None => fs
      end
  | _ => fs
  end.

(** The directories that exist after a trace (first call first). *)
Definition fs_run (tr : list syscall) (fs : gset string) : gset string :=
  foldl (λ fs c, fs_step c fs) fs tr.

(** ** Chrome: the supervisor of the chrome subprocess *)

Module Chrome.

(** One element of the list served at [http://localhost:<port>/json].
    A key that is absent from the JSON object is [None]. *)
Record target := {
  url : option string;
  webSocketDebuggerUrl : option string
}.

(** [subprocess.Popen]: the exit status is known once [poll()] or
    [wait()] has collected it, and the process is then gone. *)
Record Popen := {
  pid : Z;
  returncode : option Z
}.

Definition reaped (status : Z) (p : Popen) : Popen :=
  {| pid := pid p; returncode := Some status |}.

Definition alive (p : Popen) : bool :=
  match returncode p with None => true | Some _ => false end.

Record t := {
  port : Z;
  executable : string;
  user_home_dir : string;
  user_data_dir : string;
  proxy : option string;
  ignore_cert_errors : bool;
  chrome_process : option Popen;
  _start : Z
}.

Definition __init__ (port : Z) (executable user_home_dir user_data_dir : string)
    (proxy : option string) (ignore_cert_errors : bool) : t :=
  {| port := port; executable := executable;
     user_home_dir := user_home_dir; user_data_dir := user_data_dir;
     proxy := proxy; ignore_cert_errors := ignore_cert_errors;
     chrome_process := None; _start := 0 |}.

Definition with_process (p : Popen) (start : Z) (c : t) : t :=
  {| port := port c; executable := executable c;
     user_home_dir := user_home_dir c; user_data_dir := user_data_dir c;
     proxy := proxy c; ignore_cert_errors := ignore_cert_errors c;
     chrome_process := Some p; _start := start |}.

Definition chrome_args (c : t) : list string :=
  [executable c; "--use-mock-keychain";
   "--user-data-dir=" +:+ user_data_dir c;
   "--remote-debugging-port=" +:+ pretty (port c);
   "--disable-web-sockets"; "--disable-cache";
   "--window-size=1100,900"; "--no-default-browser-check";
   "--disable-first-run-ui"; "--no-first-run";
   "--homepage=about:blank"; "--disable-direct-npapi-requests";
   "--disable-web-security"]
  ++ (if ignore_cert_errors c then ["--ignore-certificate-errors"] else [])
  ++ (match proxy c with
      | Some p => if decide (p = "") then [] else ["--proxy-server=" +:+ p]
      | None => []
      end)
  ++ ["about:blank"].

Definition json_url (c : t) : string :=
  "http://localhost:" +:+ pretty (port c) +:+ "/json".

(** [[x for x in all_debug_info if x['url'] == 'about:blank']]; a
    descriptor without the key [url] raises [KeyError] ([None]). *)
Fixpoint about_blank_entries (l : list target) : option (list target) :=
  match l with
  | [] => Some []
  | x :: l' =>
      match url x with
      | None => None
      | Some u =>
          match about_blank_entries l' with
          | None => None
          | Some r => Some (if decide (u = "about:blank") then x :: r else r)
          end
      end
  end.

(** The body of the [try] of one iteration of [start]: [Some u] when the
    iteration reaches [return url], [None] when it falls through or an
    exception is swallowed by the bare [except].  [response] is [None] when
    [urlopen], [read], [decode] or [json.loads] raise. *)
Definition poll_once (response : option (list target)) : option string :=
  match response with
  | None => None
  | Some all_debug_info =>
      match about_blank_entries all_debug_info with
      | Some (d :: _) => webSocketDebuggerUrl d
      | _ => None
      end
  end.

Definition timeout_sec_start : Z := 600.

(** The [while True] of [start].  An observation is the response of one
    GET and the reading of the clock in the [finally] clause.  The [raise]
    in [finally] replaces a pending [return]; without it the iteration
    sleeps, also before a pending [return]. *)
Fixpoint start_loop (get : string) (started : Z)
    (obs : list (option (list target) * Z)) : result string * list syscall :=
  match obs with
  | [] => (Running, [])
  | (response, now) :: obs' =>
      let r := poll_once response in
      if decide (now - started > timeout_sec_start * 1000)
      then (Raise StartupFailure, [HttpGet get])
      else match r with
           | Some u => (Done u, [HttpGet get; Sleep])
           | None =>
               let '(o, tr) := start_loop get started obs' in
               (o, HttpGet get :: Sleep :: tr)
           end
  end.

(** [start]: spawn, record the time, poll.  [new_pid] is the pid given by
    the operating system and [spawned] the clock at that moment; [new_pid]
    is [None] when [subprocess.Popen] raises [OSError] (no such executable,
    for one), and then neither [chrome_process] nor [_start] is assigned. *)
Definition start (new_pid : option Z) (spawned : Z)
    (obs : list (option (list target) * Z))
    (c : t) : result string * t * list syscall :=
  match new_pid with
  | None => (Raise OSError, c, [SpawnError (chrome_args c) (user_home_dir c)])
  | Some new_pid =>
      let c' := with_process {| pid := new_pid; returncode := None |} spawned c in
      let '(o, tr) := start_loop (json_url c) spawned obs in
      (o, c', Spawn (chrome_args c) (user_home_dir c) :: tr)
  end.

Definition timeout_sec_stop : Z := 300.

(** How [stop] left its loop. *)
Inductive stop_exit := Exited | TimedOut.

(** The [while] of [stop].  An observation is the duration of
    [time.sleep(0.5)] and the result of [poll()] after it.
    [first_sigterm] and [last_sigterm] are the local variables of the
    source, [now] is the clock.  [None] when the observations end inside
    the loop. *)
Fixpoint stop_loop (obs : list (Z * option Z)) (first_sigterm last_sigterm now : Z)
    (p : Popen) : option (stop_exit * Popen * list syscall) :=
  if decide (now - first_sigterm < timeout_sec_stop * 1000) then
    match obs with
    | [] => None
    | (slept, status) :: obs' =>
        let now := now + slept in
        match status with
        | Some st => Some (Exited, reaped st p, [Sleep; Poll (pid p)])
        | None =>
            if decide (now - last_sigterm > 10 * 1000)
            then '(e, p', tr) ← stop_loop obs' first_sigterm now now p;
                 Some (e, p', Sleep :: Poll (pid p) :: Signal (pid p) SIGTERM :: tr)
            else '(e, p', tr) ← stop_loop obs' first_sigterm last_sigterm now p;
                 Some (e, p', Sleep :: Poll (pid p) :: tr)
        end
    end
  else Some (TimedOut, p, []).

(** [stop].  [now] is the clock when the first signal has been sent and
    [wait_status] what [wait()] returns after the kill. *)
Definition stop (now : Z) (obs : list (Z * option Z)) (wait_status : Z) (c : t)
    : result (t * list syscall) :=
  match chrome_process c with
  | None => Raise AttributeError
  | Some p =>
      match stop_loop obs now now now p with
      | None => Running
      | Some (Exited, p', tr) =>
          Done (with_process p' (_start c) c, Signal (pid p) SIGTERM :: tr)
      | Some (TimedOut, p', tr) =>
          Done (with_process (reaped wait_status p') (_start c) c,
                Signal (pid p) SIGTERM :: tr ++ [Signal (pid p) SIGKILL; Wait (pid p)])
      end
  end.

End Chrome.

(** ** Browser: one DevTools session per page visit *)

(** ASCII lower case; on the first five characters it agrees with
    [str.lower()] as far as the test [startswith("data:")] can tell. *)
Definition lower_char (c : ascii) : ascii :=
  let n := nat_of_ascii c in
  if decide (65 ≤ n ∧ n ≤ 90)%nat then ascii_of_nat (n + 32) else c.

Fixpoint lower (s : string) : string :=
  match s with
  | EmptyString => EmptyString
  | String c s' => String (lower_char c) (lower s')
  end.

(** A JSON value after [json.loads], as far as this module tells values
    apart: a string, or a value of another type (a number, a boolean,
    [null], an array or an object), of which the JSON text is kept. *)
Inductive json :=
| JString (s : string)
| JOther (text : string).

Global Instance json_eq_dec : EqDecision json.
Proof. solve_decision. Defined.

Module Browser.

Definition HARD_TIMEOUT_SECONDS : Z := 20 * 60.

(** Modelled from the spec: the class [Behavior] of [brozzler.behaviors],
    which is imported by the source but is not part of it.  The spec gives
    its contract only: a constructor [Behavior(url, driver)], [start()],
    [is_finished()], [notify_of_activity()], [is_waiting_on_result(id)] and
    [notify_of_result(message)].  The object records its constructor
    argument; calls to it are recorded in the trace and the answers of its
    two queries are observations. *)
Record Behavior := { behavior_url : string }.

(** The part of a reply ([{"id": .., "result": ..}]) that the handler
    reads: [result.data] and [result.result.value], [None] when the key is
    missing. *)
Record reply := {
  data : option json;
  value : option json
}.

(** A message received on the websocket, after [json.loads].  The id of a
    reply is [None] for JSON [null].  [Other] is a message without
    ["result"] whose method is none of the four handled ones. *)
Inductive message :=
| Network_requestWillBeSent (request_url : string)
| Page_loadEventFired
| Console_messageAdded
| Debugger_paused (scriptId : string)
| Reply (id : option Z) (r : reply)
| Other.

(** What the driver does to the outside, in order. *)
Inductive event :=
| Sent (id : Z) (method : string) (param : string)   (* websocket send *)
| OnRequest (request_url : string)
| OnScreenshot (png : string)
| OnUrlChange (new_url : json)
| BehaviorNew (url : string)
| BehaviorStart
| BehaviorActivity
| BehaviorResult (id : option Z)
| HandlerRaised (e : exn)      (* the exception ends the handler only *)
| WebsockClose.

Global Instance event_eq_dec : EqDecision event.
Proof. solve_decision. Defined.

Record t := {
  command_id : Z;                      (* next value of itertools.count(1) *)
  chrome_port : Z;
  chrome_exe : string;
  proxy : option string;
  ignore_cert_errors : bool;
  _behavior : option Behavior;
  _websock : option string;            (* WebSocketApp(url, ...) *)
  _abort_browse_page : bool;
  _chrome_instance : option Chrome.t;
  _work_dir : option (option string);  (* outer [None]: attribute not set *)
  _websocket_url : option string;      (* [None]: attribute not set *)
  (* the attributes that [browse_page] sets *)
  url : string;
  on_request : bool;                   (* is a callback given? *)
  on_screenshot : bool;
  on_url_change : bool;
  _waiting_on_screenshot_msg_id : option Z;
  _waiting_on_outlinks_msg_id : option Z;
  _waiting_on_document_url_msg_id : option Z;
  _outlinks : option (gset string);
  _start : Z
}.

Definition __init__ (chrome_port : Z) (chrome_exe : string)
    (proxy : option string) (ignore_cert_errors : bool) : t :=
  {| command_id := 1; chrome_port := chrome_port; chrome_exe := chrome_exe;
     proxy := proxy; ignore_cert_errors := ignore_cert_errors;
     _behavior := None; _websock := None; _abort_browse_page := false;
     _chrome_instance := None; _work_dir := None; _websocket_url := None;
     url := ""; on_request := false; on_screenshot := false;
     on_url_change := false;
     _waiting_on_screenshot_msg_id := None;
     _waiting_on_outlinks_msg_id := None;
     _waiting_on_document_url_msg_id := None;
     _outlinks := None; _start := 0 |}.

(** Assignments to one attribute. *)

Definition set_command_id (n : Z) (b : t) : t :=
  {| command_id := n; chrome_port := chrome_port b; chrome_exe := chrome_exe b;
     proxy := proxy b; ignore_cert_errors := ignore_cert_errors b;
     _behavior := _behavior b; _websock := _websock b;
     _abort_browse_page := _abort_browse_page b;
     _chrome_instance := _chrome_instance b; _work_dir := _work_dir b;
     _websocket_url := _websocket_url b;
     url := url b; on_request := on_request b; on_screenshot := on_screenshot b;
     on_url_change := on_url_change b;
     _waiting_on_screenshot_msg_id := _waiting_on_screenshot_msg_id b;
     _waiting_on_outlinks_msg_id := _waiting_on_outlinks_msg_id b;
     _waiting_on_document_url_msg_id := _waiting_on_document_url_msg_id b;
     _outlinks := _outlinks b; _start := _start b |}.

Definition set_behavior (x : option Behavior) (b : t) : t :=
  {| command_id := command_id b; chrome_port := chrome_port b; chrome_exe := chrome_exe b;
     proxy := proxy b; ignore_cert_errors := ignore_cert_errors b;
     _behavior := x; _websock := _websock b;
     _abort_browse_page := _abort_browse_page b;
     _chrome_instance := _chrome_instance b; _work_dir := _work_dir b;
     _websocket_url := _websocket_url b;
     url := url b; on_request := on_request b; on_screenshot := on_screenshot b;
     on_url_change := on_url_change b;
     _waiting_on_screenshot_msg_id := _waiting_on_screenshot_msg_id b;
     _waiting_on_outlinks_msg_id := _waiting_on_outlinks_msg_id b;
     _waiting_on_document_url_msg_id := _waiting_on_document_url_msg_id b;
     _outlinks := _outlinks b; _start := _start b |}.

Definition set_abort_browse_page (x : bool) (b : t) : t :=
  {| command_id := command_id b; chrome_port := chrome_port b; chrome_exe := chrome_exe b;
     proxy := proxy b; ignore_cert_errors := ignore_cert_errors b;
     _behavior := _behavior b; _websock := _websock b;
     _abort_browse_page := x;
     _chrome_instance := _chrome_instance b; _work_dir := _work_dir b;
     _websocket_url := _websocket_url b;
     url := url b; on_request := on_request b; on_screenshot := on_screenshot b;
     on_url_change := on_url_change b;
     _waiting_on_screenshot_msg_id := _waiting_on_screenshot_msg_id b;
     _waiting_on_outlinks_msg_id := _waiting_on_outlinks_msg_id b;
     _waiting_on_document_url_msg_id := _waiting_on_document_url_msg_id b;
     _outlinks := _outlinks b; _start := _start b |}.

Definition set_waiting_on_screenshot_msg_id (x : option Z) (b : t) : t :=
  {| command_id := command_id b; chrome_port := chrome_port b; chrome_exe := chrome_exe b;
     proxy := proxy b; ignore_cert_errors := ignore_cert_errors b;
     _behavior := _behavior b; _websock := _websock b;
     _abort_browse_page := _abort_browse_page b;
     _chrome_instance := _chrome_instance b; _work_dir := _work_dir b;
     _websocket_url := _websocket_url b;
     url := url b; on_request := on_request b; on_screenshot := on_screenshot b;
     on_url_change := on_url_change b;
     _waiting_on_screenshot_msg_id := x;
     _waiting_on_outlinks_msg_id := _waiting_on_outlinks_msg_id b;
     _waiting_on_document_url_msg_id := _waiting_on_document_url_msg_id b;
     _outlinks := _outlinks b; _start := _start b |}.

Definition set_waiting_on_outlinks_msg_id (x : option Z) (b : t) : t :=
  {| command_id := command_id b; chrome_port := chrome_port b; chrome_exe := chrome_exe b;
     proxy := proxy b; ignore_cert_errors := ignore_cert_errors b;
     _behavior := _behavior b; _websock := _websock b;
     _abort_browse_page := _abort_browse_page b;
     _chrome_instance := _chrome_instance b; _work_dir := _work_dir b;
     _websocket_url := _websocket_url b;
     url := url b; on_request := on_request b; on_screenshot := on_screenshot b;
     on_url_change := on_url_change b;
     _waiting_on_screenshot_msg_id := _waiting_on_screenshot_msg_id b;
     _waiting_on_outlinks_msg_id := x;
     _waiting_on_document_url_msg_id := _waiting_on_document_url_msg_id b;
     _outlinks := _outlinks b; _start := _start b |}.

Definition set_waiting_on_document_url_msg_id (x : option Z) (b : t) : t :=
  {| command_id := command_id b; chrome_port := chrome_port b; chrome_exe := chrome_exe b;
     proxy := proxy b; ignore_cert_errors := ignore_cert_errors b;
     _behavior := _behavior b; _websock := _websock b;
     _abort_browse_page := _abort_browse_page b;
     _chrome_instance := _chrome_instance b; _work_dir := _work_dir b;
     _websocket_url := _websocket_url b;
     url := url b; on_request := on_request b; on_screenshot := on_screenshot b;
     on_url_change := on_url_change b;
     _waiting_on_screenshot_msg_id := _waiting_on_screenshot_msg_id b;
     _waiting_on_outlinks_msg_id := _waiting_on_outlinks_msg_id b;
     _waiting_on_document_url_msg_id := x;
     _outlinks := _outlinks b; _start := _start b |}.

Definition set_outlinks (x : option (gset string)) (b : t) : t :=
  {| command_id := command_id b; chrome_port := chrome_port b; chrome_exe := chrome_exe b;
     proxy := proxy b; ignore_cert_errors := ignore_cert_errors b;
     _behavior := _behavior b; _websock := _websock b;
     _abort_browse_page := _abort_browse_page b;
     _chrome_instance := _chrome_instance b; _work_dir := _work_dir b;
     _websocket_url := _websocket_url b;
     url := url b; on_request := on_request b; on_screenshot := on_screenshot b;
     on_url_change := on_url_change b;
     _waiting_on_screenshot_msg_id := _waiting_on_screenshot_msg_id b;
     _waiting_on_outlinks_msg_id := _waiting_on_outlinks_msg_id b;
     _waiting_on_document_url_msg_id := _waiting_on_document_url_msg_id b;
     _outlinks := x; _start := _start b |}.

(** The three attributes that [start] and [stop] assign. *)
Definition set_instance (c : option Chrome.t) (w : option (option string))
    (u : option string) (b : t) : t :=
  {| command_id := command_id b; chrome_port := chrome_port b; chrome_exe := chrome_exe b;
     proxy := proxy b; ignore_cert_errors := ignore_cert_errors b;
     _behavior := _behavior b; _websock := _websock b;
     _abort_browse_page := _abort_browse_page b;
     _chrome_instance := c; _work_dir := w; _websocket_url := u;
     url := url b; on_request := on_request b; on_screenshot := on_screenshot b;
     on_url_change := on_url_change b;
     _waiting_on_screenshot_msg_id := _waiting_on_screenshot_msg_id b;
     _waiting_on_outlinks_msg_id := _waiting_on_outlinks_msg_id b;
     _waiting_on_document_url_msg_id := _waiting_on_document_url_msg_id b;
     _outlinks := _outlinks b; _start := _start b |}.

(** The assignments at the head of [browse_page], up to the one of
    [on_url_change] and its id. *)
Definition reset_visit (u : string) (req shot chg : bool) (b : t) : t :=
  {| command_id := command_id b; chrome_port := chrome_port b; chrome_exe := chrome_exe b;
     proxy := proxy b; ignore_cert_errors := ignore_cert_errors b;
     _behavior := _behavior b; _websock := _websock b;
     _abort_browse_page := _abort_browse_page b;
     _chrome_instance := _chrome_instance b; _work_dir := _work_dir b;
     _websocket_url := _websocket_url b;
     url := u; on_request := req; on_screenshot := shot; on_url_change := chg;
     _waiting_on_screenshot_msg_id := None;
     _waiting_on_outlinks_msg_id := None;
     _waiting_on_document_url_msg_id := None;
     _outlinks := None; _start := _start b |}.

(** The assignments of [self._websock] and, once the reader thread is
    started, of [self._start]. *)
Definition open_websock (ws : string) (now : Z) (b : t) : t :=
  {| command_id := command_id b; chrome_port := chrome_port b; chrome_exe := chrome_exe b;
     proxy := proxy b; ignore_cert_errors := ignore_cert_errors b;
     _behavior := _behavior b; _websock := Some ws;
     _abort_browse_page := _abort_browse_page b;
     _chrome_instance := _chrome_instance b; _work_dir := _work_dir b;
     _websocket_url := _websocket_url b;
     url := url b; on_request := on_request b; on_screenshot := on_screenshot b;
     on_url_change := on_url_change b;
     _waiting_on_screenshot_msg_id := _waiting_on_screenshot_msg_id b;
     _waiting_on_outlinks_msg_id := _waiting_on_outlinks_msg_id b;
     _waiting_on_document_url_msg_id := _waiting_on_document_url_msg_id b;
     _outlinks := _outlinks b; _start := now |}.

(** The state in which the loop of [browse_page] starts. *)
Definition begin_visit (u : string) (req shot chg : bool) (ws : string) (now : Z)
    (b : t) : t :=
  open_websock ws now (reset_visit u req shot chg b).

Definition abort_browse_page (b : t) : t := set_abort_browse_page true b.

(** [send_to_chrome(method=.., params=..)]: the next id of the counter,
    one message on the websocket.  [param] stands for the one parameter the
    callers of this module pass, if any. *)
Definition send_to_chrome (method param : string) (b : t) : Z * t * list event :=
  let msg_id := command_id b in
  (msg_id, set_command_id (msg_id + 1) b, [Sent msg_id method param]).

(** A sequence of [send_to_chrome] calls whose ids are dropped. *)
Fixpoint send_each (cmds : list (string * string)) (b : t) : t * list event :=
  match cmds with
  | [] => (b, [])
  | (method, param) :: cmds' =>
      let '(_, b1, tr1) := send_to_chrome method param b in
      let '(b2, tr2) := send_each cmds' b1 in
      (b2, tr1 ++ tr2)
  end.

Definition _visit_page (b : t) : t * list event :=
  send_each [("Network.enable", ""); ("Page.enable", "");
             ("Console.enable", ""); ("Debugger.enable", "");
             ("Runtime.enable", "");
             ("Debugger.setBreakpointByUrl",
              "https?://www.google-analytics.com/analytics.js");
             ("Page.navigate", url b)] b.

Definition outlinks_expression : string :=
  "Array.prototype.slice.call(document.querySelectorAll('a[href]')).join(' ')".

(** Truth value of an id slot ([None] and [0] are false) and of the
    outlinks ([None] and the empty set are false). *)
Definition truthy_id (x : option Z) : bool :=
  match x with
  | Some n => bool_decide (n ≠ 0)
  | None => false
  end.

Definition truthy_outlinks (x : option (gset string)) : bool :=
  match x with
  | Some s => bool_decide (s ≠ ∅)
  | None => false
  end.

(** What the poller sees when it wakes up: the clock, the state of
    [self._websock.sock] and the answer of [is_finished()] if a behavior
    exists. *)
Record tick := {
  now : Z;
  sock_connected : bool;
  behavior_finished : bool
}.

(** [_browse_interval_func]: [Done (Some true)], [Done (Some false)] and
    [Done None] are the returns of [True], [False] and, by falling off the
    end, [None]. *)
Definition _browse_interval_func (tk : tick) (b : t)
    : result (option bool) * t * list event :=
  match _websock b with
  | None => (Raise BrowsingException, b, [])
  | Some _ =>
      if negb (sock_connected tk) then (Raise BrowsingException, b, [])
      else
        match _behavior b with
        | Some _ =>
            if behavior_finished tk then
              if truthy_outlinks (_outlinks b) then (Done (Some true), b, [])
              else if negb (truthy_id (_waiting_on_outlinks_msg_id b)) then
                let '(msg_id, b1, tr) :=
                  send_to_chrome "Runtime.evaluate" outlinks_expression b in
                (Done (Some false),
                 set_waiting_on_outlinks_msg_id (Some msg_id) b1, tr)
              else (Done None, b, [])
            else if decide (now tk - _start b > HARD_TIMEOUT_SECONDS * 1000)
              then (Done (Some true), b, [])
            else if _abort_browse_page b then (Raise BrowsingAborted, b, [])
            else (Done None, b, [])
        | None =>
            if decide (now tk - _start b > HARD_TIMEOUT_SECONDS * 1000)
              then (Done (Some true), b, [])
            else if _abort_browse_page b then (Raise BrowsingAborted, b, [])
            else (Done None, b, [])
        end
  end.

Section WithBase64.

(** [base64.b64decode] of the Python library: [None] when it raises
    [binascii.Error]. *)
Variable b64decode : string → option string.

(** The branch of [_handle_message] for a reply that answers the
    screenshot request. *)
Definition handle_screenshot (r : reply) (b : t) : t * list event :=
  let called :=
    if on_screenshot b then
      match data r with
      | None => Raise KeyError
      | Some (JOther _) => Raise TypeError
      | Some (JString d) =>
          match b64decode d with
          | None => Raise BinasciiError
          | Some png => Done [OnScreenshot png]
          end
      end
    else Done [] in
  match called with
  | Done tr =>
      let b1 := set_waiting_on_screenshot_msg_id None b in
      let b2 := set_behavior (Some {| behavior_url := url b1 |}) b1 in
      (b2, tr ++ [BehaviorNew (url b1); BehaviorStart])
  | Raise e => (b, [HandlerRaised e])
  | Running => (b, [])
  end.

(** [_handle_message].  [behavior_waiting] is the answer of
    [is_waiting_on_result(message["id"])], used only where the source
    asks for it. *)
Definition _handle_message (m : message) (behavior_waiting : bool) (b : t)
    : t * list event :=
  match m with
  | Network_requestWillBeSent u =>
      let tr1 := match _behavior b with
                 | Some _ => [BehaviorActivity]
                 | None => []
                 end in
      let tr2 := if String.prefix "data:" (lower u) then []
                 else if on_request b then [OnRequest u] else [] in
      (b, tr1 ++ tr2)
  | Page_loadEventFired =>
      let '(id1, b1, tr1) := send_to_chrome "Page.captureScreenshot" "" b in
      let b2 := set_waiting_on_screenshot_msg_id (Some id1) b1 in
      let '(id2, b3, tr2) := send_to_chrome "Runtime.evaluate" "document.URL" b2 in
      (set_waiting_on_document_url_msg_id (Some id2) b3, tr1 ++ tr2)
  | Console_messageAdded => (b, [])
  | Debugger_paused scriptId =>
      send_each [("Debugger.setScriptSource", scriptId);
                 ("Debugger.resume", "")] b
  | Reply id r =>
      if decide (id = _waiting_on_screenshot_msg_id b) then
        handle_screenshot r b
      else if decide (id = _waiting_on_outlinks_msg_id b) then
        match value r with
        | None => (b, [HandlerRaised KeyError])
        | Some (JOther _) => (b, [HandlerRaised AttributeError])
        | Some (JString v) =>
            (set_outlinks (Some (list_to_set (split space v))) b, [])
        end
      else if decide (id = _waiting_on_document_url_msg_id b) then
        match value r with
        | None => (b, [HandlerRaised KeyError])
        | Some v =>
            (set_waiting_on_document_url_msg_id None b,
             if decide (v ≠ JString (url b))
             then (if on_url_change b then [OnUrlChange v] else [])
             else [])
        end
      else
        match _behavior b with
        | Some _ => (b, if behavior_waiting then [BehaviorResult id] else [])
        | None => (b, [])
        end
  | Other => (b, [])
  end.

(** What can happen while [browse_page] is in its loop, in the order in
    which it happens: the reader thread runs a callback of the websocket,
    the behavior sends a command, another thread calls
    [abort_browse_page], the poller wakes up. *)
Inductive step :=
| WsOpen
| WsMessage (m : message) (behavior_waiting : bool)
| BehaviorSend (method param : string)
| AbortCall
| Tick (tk : tick).

(** What a step other than a tick does to the browser. *)
Definition beside (s : step) (b : t) : t * list event :=
  match s with
  | WsOpen => _visit_page b
  | WsMessage m w => _handle_message m w b
  | BehaviorSend method param =>
      let '(_, b1, tr) := send_to_chrome method param b in (b1, tr)
  | AbortCall => (abort_browse_page b, [])
  | Tick _ => (b, [])
  end.

(** The [while True] of [browse_page] and what runs beside it.  The last
    component is [sock_connected] at the tick that ended the loop. *)
Fixpoint browse_loop (sched : list step) (b : t)
    : result (option (gset string)) * t * list event * bool :=
  match sched with
  | [] => (Running, b, [], false)
  | Tick tk :: sched' =>
      match _browse_interval_func tk b with
      | (Raise e, b1, tr) => (Raise e, b1, tr, sock_connected tk)
      | (Running, b1, tr) => (Running, b1, tr, sock_connected tk)
      | (Done (Some true), b1, tr) =>
          (Done (_outlinks b1), b1, tr, sock_connected tk)
      | (Done _, b1, tr) =>
          let '(o, b2, tr', c) := browse_loop sched' b1 in
          (o, b2, tr ++ tr', c)
      end
  | s :: sched' =>
      let '(b1, tr) := beside s b in
      let '(o, b2, tr', c) := browse_loop sched' b1 in
      (o, b2, tr ++ tr', c)
  end.

(** The [finally] of [browse_page]. *)
Definition teardown (connected : bool) (b : t) : t * list event :=
  (set_behavior None b, if connected then [WebsockClose] else []).

(** [browse_page(url, on_request, on_screenshot, on_url_change)];
    [started] is the clock read into [self._start].  Without
    [self._websocket_url] the construction of the [WebSocketApp] raises,
    after the first assignments and before the [try]. *)
Definition browse_page (u : string) (req shot chg : bool) (started : Z)
    (sched : list step) (b : t)
    : result (option (gset string)) * t * list event :=
  match _websocket_url b with
  | None => (Raise AttributeError, reset_visit u req shot chg b, [])
  | Some ws =>
      let b0 := begin_visit u req shot chg ws started b in
      match browse_loop sched b0 with
      | (Running, b1, tr, _) => (Running, b1, tr)
      | (o, b1, tr, c) =>
          let '(b2, tr') := teardown c b1 in
          (o, b2, tr ++ tr')
      end
  end.

End WithBase64.

(** [proxy or self.proxy] *)
Definition proxy_or (proxy self_proxy : option string) : option string :=
  match proxy with
  | Some p => if decide (p = "") then self_proxy else Some p
  | None => self_proxy
  end.

(** What the assignment of a new value to [self._work_dir] does to the old
    one: a [TemporaryDirectory] that loses its last reference before its
    [cleanup()] is finalized, which removes its directory. *)
Definition finalized (b : t) : list syscall :=
  match _work_dir b with
  | Some (Some old) => [Rmtree old]
  | _ => []
  end.

(** [start(proxy)].  [tmp] is the name of the directory that
    [tempfile.TemporaryDirectory()] creates, [None] when it raises
    [OSError], before anything is assigned; the other arguments are those of
    [Chrome.start].  When [Chrome.start] raises, [_work_dir] and
    [_chrome_instance] are assigned and [_websocket_url] is not. *)
Definition start (proxy_arg : option string) (tmp : option string)
    (new_pid : option Z) (spawned : Z)
    (obs : list (option (list Chrome.target) * Z)) (b : t)
    : result unit * t * list syscall :=
  match tmp with
  | None => (Raise OSError, b, [MkdtempError])
  | Some tmp =>
      let c := Chrome.__init__ (chrome_port b) (chrome_exe b) tmp
                 (tmp +:+ "/" +:+ "chrome-user-data")
                 (proxy_or proxy_arg (proxy b)) (ignore_cert_errors b) in
      let '(o, c', tr) := Chrome.start new_pid spawned obs c in
      let b1 := set_instance (Some c') (Some (Some tmp)) (_websocket_url b) b in
      let tr := Mkdtemp tmp :: finalized b ++ tr in
      match o with
      | Done u =>
          (Done (), set_instance (Some c') (Some (Some tmp)) (Some u) b, tr)
      | Raise e => (Raise e, b1, tr)
      | Running => (Running, b1, tr)
      end
  end.

(** [stop()]; the arguments are those of [Chrome.stop]. *)
Definition stop (now : Z) (obs : list (Z * option Z)) (wait_status : Z) (b : t)
    : result (t * list syscall) :=
  let stopped :=
    match _chrome_instance b with
    | Some c =>
        match Chrome.stop now obs wait_status c with
        | Done (_, tr) =>
            Done (set_instance None (_work_dir b) (_websocket_url b) b, tr)
        | Raise e => Raise e
        | Running => Running
        end
    | None => Done (b, [])
    end in
  match stopped with
  | Done (b1, tr) =>
      match _work_dir b1 with
      | None => Raise AttributeError
      | Some None => Done (b1, tr)
      | Some (Some d) =>
          Done (set_instance (_chrome_instance b1) (Some None) (_websocket_url b1) b1,
                tr ++ [Rmtree d])
      end
  | Raise e => Raise e
  | Running => Running
  end.

End Browser.

(** ** BrowserPool: a fixed set of browsers handed out one at a time *)

Module BrowserPool.

Definition BASE_PORT : Z := 9200.

(** The two sets hold references; the browsers are in the heap. *)
Record t := {
  _available : gset ref;
  _in_use : gset ref
}.

(** What a method does, in order: the lock of the [with] statement, the
    set operations, the calls on browsers. *)
Inductive event :=
| LockAcquire
| LockRelease
| AvailablePop (r : ref)
| AvailableAdd (r : ref)
| InUseAdd (r : ref)
| InUseRemove (r : ref)
| AbortBrowsePage (r : ref).

(** The keyword arguments that [__init__] passes on to [Browser]. *)
Record kwargs := {
  chrome_exe : string;
  proxy : option string;
  ignore_cert_errors : bool
}.

(** The body of [for i in range(0, size)], from [i] on for [n] more
    rounds: a new object in the heap, its reference in the set. *)
Fixpoint create (kw : kwargs) (i : Z) (n : nat) (available : gset ref)
    (heap : gmap ref Browser.t) : gset ref * gmap ref Browser.t :=
  match n with
  | O => (available, heap)
  | S n' =>
      let browser := fresh (dom heap) in
      let heap' :=
        <[browser := Browser.__init__ (BASE_PORT + i) (chrome_exe kw)
                       (proxy kw) (ignore_cert_errors kw)]> heap in
      create kw (i + 1) n' ({[browser]} ∪ available) heap'
  end.

(** [BrowserPool(size, **kwargs)]; [size] counts the rounds of
    [range(0, size)]. *)
Definition __init__ (size : nat) (kw : kwargs) (heap : gmap ref Browser.t)
    : t * gmap ref Browser.t :=
  let '(available, heap') := create kw 0 size ∅ heap in
  ({| _available := available; _in_use := ∅ |}, heap').

(** [set.pop()]: some element of the set, which one is not specified;
    [choice] picks it among [elements s].  [None] is [KeyError]. *)
Definition pop (choice : nat) (s : gset ref) : option (ref * gset ref) :=
  let l := elements s in
  match l !! (choice mod length l)%nat with
  | Some x => Some (x, s ∖ {[x]})
  | None => None
  end.

Definition acquire (choice : nat) (p : t) : result ref * t * list event :=
  match pop choice (_available p) with
  | Some (browser, rest) =>
      (Done browser,
       {| _available := rest; _in_use := {[browser]} ∪ _in_use p |},
       [LockAcquire; AvailablePop browser; InUseAdd browser; LockRelease])
  | None => (Raise KeyError, p, [LockAcquire; LockRelease])
  end.

(** [set.remove] raises [KeyError] for an absent element, after the
    [add] of the line before. *)
Definition release (browser : ref) (p : t) : result unit * t * list event :=
  let available := {[browser]} ∪ _available p in
  if decide (browser ∈ _in_use p) then
    (Done (),
     {| _available := available; _in_use := _in_use p ∖ {[browser]} |},
     [LockAcquire; AvailableAdd browser; InUseRemove browser; LockRelease])
  else
    (Raise KeyError,
     {| _available := available; _in_use := _in_use p |},
     [LockAcquire; AvailableAdd browser; LockRelease]).

Definition shutdown_now (p : t) (heap : gmap ref Browser.t)
    : t * gmap ref Browser.t * list event :=
  let l := elements (_in_use p) in
  (p,
   foldl (λ h browser, alter Browser.abort_browse_page browser h) heap l,
   AbortBrowsePage <$> l).

(** A call of one of the three methods by a user of the pool. *)
Inductive call :=
| Acquire (choice : nat)
| Release (browser : ref)
| ShutdownNow.

Definition do_call (c : call) (st : t * gmap ref Browser.t)
    : t * gmap ref Browser.t * list event :=
  let '(p, heap) := st in
  match c with
  | Acquire choice => let '(_, p', tr) := acquire choice p in (p', heap, tr)
  | Release browser => let '(_, p', tr) := release browser p in (p', heap, tr)
  | ShutdownNow => shutdown_now p heap
  end.

(** The state after a sequence of calls. *)
Definition run (calls : list call) (st : t * gmap ref Browser.t)
    : t * gmap ref Browser.t :=
  foldl (λ st c, (do_call c st).1) st calls.

(** The trace is one critical section: it opens with the lock, closes
    with it, and does not touch it in between. *)
Definition is_lock (e : event) : bool :=
  match e with
  | LockAcquire | LockRelease => true
  | _ => false
  end.

Definition under_lock (tr : list event) : Prop :=
  ∃ body, tr = LockAcquire :: body ++ [LockRelease]
          ∧ forallb (λ e, negb (is_lock e)) body = true.

(** The references a call hands to [release]. *)
Definition released (calls : list call) : list ref :=
  omap (λ c, match c with Release r => Some r | _ => None end) calls.

End BrowserPool.

(** ** Auxiliary notions used to state the properties *)

(** The words of the specification for the readiness test of
    [Chrome.start]: "the unique entry whose url field equals about:blank and
    whose webSocketDebuggerUrl is present".  To be compared with
    [Chrome.poll_once], which is what the source does. *)
Definition unique_ready_target (l : list Chrome.target) : option string :=
  match filter (λ x, Chrome.url x = Some "about:blank"
                     ∧ is_Some (Chrome.webSocketDebuggerUrl x)) l with
  | [d] => Chrome.webSocketDebuggerUrl d
  | _ => None
  end.

(** The calls of a trace that send a signal to, or collect, a process. *)
Definition touches_process (c : syscall) : bool :=
  match c with
  | Signal _ _ | Poll _ | Wait _ => true
  | _ => false
  end.

Definition touches_fs (c : syscall) : bool :=
  match c with
  | Mkdtemp _ | Rmtree _ | Spawn _ _ => true
  | _ => false
  end.




Definition is_screenshot (e : Browser.event) : bool :=
  match e with Browser.OnScreenshot _ => true | _ => false end.


(** Replies carry an integer id (not JSON [null]). *)
Definition integer_id (s : Browser.step) : bool :=
  match s with
  | Browser.WsMessage (Browser.Reply None _) _ => false
  | _ => true
  end.

Definition is_tick (s : Browser.step) : bool :=
  match s with Browser.Tick _ => true | _ => false end.

(** A step of a visit in which nothing ends the loop: no abort is asked
    for, and at a tick the socket is connected, the behavior is not
    finished and the hard timeout has not passed. *)
Definition uneventful (started : Z) (s : Browser.step) : bool :=
  match s with
  | Browser.Tick tk =>
      Browser.sock_connected tk && negb (Browser.behavior_finished tk)
      && bool_decide (Browser.now tk - started ≤ Browser.HARD_TIMEOUT_SECONDS * 1000)
  | Browser.AbortCall => false
  | _ => true
  end.

(** The behavior, if asked at this step, says that it is not finished. *)
Definition behavior_unfinished (s : Browser.step) : bool :=
  match s with
  | Browser.Tick tk => negb (Browser.behavior_finished tk)
  | _ => true
  end.

(** What no step of a visit changes: the attributes set at its start, and
    the abort flag once it is set. *)
Definition same_visit (b b' : Browser.t) : Prop :=
  Browser._start b' = Browser._start b
  ∧ Browser._websock b' = Browser._websock b
  ∧ Browser._websocket_url b' = Browser._websocket_url b
  ∧ Browser.url b' = Browser.url b
  ∧ Browser.on_request b' = Browser.on_request b
  ∧ Browser.on_screenshot b' = Browser.on_screenshot b
  ∧ Browser.on_url_change b' = Browser.on_url_change b
  ∧ (Browser._abort_browse_page b = true → Browser._abort_browse_page b' = true).

(** The outlinks of a browser are absent or the fields of some string. *)
Definition fields_or_none (o : option (gset string)) : Prop :=
  o = None ∨ ∃ v, o = Some (list_to_set (split space v)).



(** A browser as [Browser.start] leaves it when chrome is ready at once;
    the starting point of the examples of visits. *)
Definition started_browser : Browser.t :=
  (Browser.start None (Some "/tmp/tmpx") (Some 4242) 0
     [(Some [ {| Chrome.url := Some "about:blank";
                 Chrome.webSocketDebuggerUrl :=
                   Some "ws://localhost:9200/devtools/page/1" |} ], 300)]
     (Browser.__init__ 9200 "chromium-browser" None false)).1.2.

(** The messages of a visit that goes well: the page loads, the
    screenshot and the document URL arrive, the behavior is finished at the
    first tick, the reply to the outlinks query is [links], and the visit
    ends at the second tick. *)
Definition happy_path (links : string) : list Browser.step :=
  [ Browser.WsOpen;
    Browser.WsMessage Browser.Page_loadEventFired false;
    Browser.WsMessage
      (Browser.Reply (Some 8)
         {| Browser.data := Some (JString "UE5H"); Browser.value := None |})
      false;
    Browser.WsMessage
      (Browser.Reply (Some 9)
         {| Browser.data := None; Browser.value := Some (JString "http://example/") |})
      false;
    Browser.Tick {| Browser.now := 500; Browser.sock_connected := true;
                    Browser.behavior_finished := true |};
    Browser.WsMessage
      (Browser.Reply (Some 10)
         {| Browser.data := None; Browser.value := Some (JString links) |})
      false ].

Definition last_tick : Browser.step :=
  Browser.Tick {| Browser.now := 1000; Browser.sock_connected := true;
                  Browser.behavior_finished := true |}.

(** A decoder for the standard alphabet of RFC 4648 with padding, to put
    in the place of [b64decode] in examples. *)
Definition b64_digit (c : ascii) : option N :=
  let n := N_of_ascii c in
  if decide (65 ≤ n ∧ n ≤ 90)%N then Some (n - 65)%N
  else if decide (97 ≤ n ∧ n ≤ 122)%N then Some (n - 71)%N
  else if decide (48 ≤ n ∧ n ≤ 57)%N then Some (n + 4)%N
  else if decide (n = 43)%N then Some 62%N
  else if decide (n = 47)%N then Some 63%N
  else None.

Fixpoint b64decode_rfc4648 (s : string) : option string :=
  match s with
  | EmptyString => Some EmptyString
  | String c1 (String c2 (String c3 (String c4 rest))) =>
      v1 ← b64_digit c1;
      v2 ← b64_digit c2;
      let o1 := ascii_of_N (v1 * 4 + v2 / 16) in
      if decide (c3 = "="%char) then
        if decide (c4 = "="%char ∧ rest = EmptyString)
        then Some (String o1 EmptyString) else None
      else
        v3 ← b64_digit c3;
        let o2 := ascii_of_N ((v2 mod 16) * 16 + v3 / 4) in
        if decide (c4 = "="%char) then
          if decide (rest = EmptyString)
          then Some (String o1 (String o2 EmptyString)) else None
        else
          v4 ← b64_digit c4;
          let o3 := ascii_of_N ((v3 mod 4) * 64 + v4) in
          String o1 ∘ String o2 ∘ String o3 <$> b64decode_rfc4648 rest
  | _ => None
  end.

(** ** Further notions, for the properties of the rest of the module *)

(** [Browser.__repr__]: ["{}.{}:{}".format(__module__, __qualname__, port)]. *)
Definition Browser__repr__ (b : Browser.t) : string :=
  "brozzler.browser" +:+ "." +:+ "Browser" +:+ ":" +:+ pretty (Browser.chrome_port b).

(** [acquire()] called once per element of [choices], one call after the
    other: what each call gave, and the pool at the end. *)
Fixpoint acquire_each (choices : list nat) (p : BrowserPool.t)
    : list (result ref) * BrowserPool.t :=
  match choices with
  | [] => ([], p)
  | choice :: choices' =>
      let '(o, p', _) := BrowserPool.acquire choice p in
      let '(os, p'') := acquire_each choices' p' in
      (o :: os, p'')
  end.

(** The ids of the commands sent in a trace, in order. *)
Definition sent_ids (tr : list Browser.event) : list Z :=
  omap (λ e, match e with Browser.Sent id _ _ => Some id | _ => None end) tr.

(** The command is the query for the outlinks. *)
Definition is_outlinks_query (e : Browser.event) : bool :=
  match e with
  | Browser.Sent _ method param =>
      bool_decide (method = "Runtime.evaluate" ∧ param = Browser.outlinks_expression)
  | _ => false
  end.

(** The step is the behavior sending the outlinks query itself. *)
Definition sends_outlinks_query (s : Browser.step) : bool :=
  match s with
  | Browser.BehaviorSend method param =>
      bool_decide (method = "Runtime.evaluate" ∧ param = Browser.outlinks_expression)
  | _ => false
  end.

(** Every id waited for was given out by the counter before. *)
Definition slots_below (b : Browser.t) : Prop :=
  (∀ id, Browser._waiting_on_screenshot_msg_id b = Some id → id < Browser.command_id b)
  ∧ (∀ id, Browser._waiting_on_outlinks_msg_id b = Some id → id < Browser.command_id b)
  ∧ (∀ id, Browser._waiting_on_document_url_msg_id b = Some id → id < Browser.command_id b).

(** The signals and the collecting calls in a trace. *)
Definition is_sigterm (c : syscall) : bool :=
  match c with Signal _ SIGTERM => true | _ => false end.

Definition is_sleep (c : syscall) : bool :=
  match c with Sleep => true | _ => false end.

(** The sum of the sleeps of observations of [Chrome.stop]. *)
Definition slept_total (obs : list (Z * option Z)) : Z :=
  foldr (λ o acc, o.1 + acc) 0 obs.

(** The ids are [m], [m + 1], [m + 2], ... *)
Fixpoint consecutive_from (m : Z) (l : list Z) : Prop :=
  match l with
  | [] => True
  | x :: l' => x = m ∧ consecutive_from (m + 1) l'
  end.

(** The number of outlinks queries in a trace. *)
Definition outlinks_queries (tr : list Browser.event) : nat :=
  length (filter (λ e, is_outlinks_query e = true) tr).

(** From [b] to [b'] the commands of the trace were sent with the ids
    that the counter of [b] gives, one after the other. *)
Definition counts (b : Browser.t) (tr : list Browser.event) (b' : Browser.t) : Prop :=
  consecutive_from (Browser.command_id b) (sent_ids tr)
  ∧ Browser.command_id b' = Browser.command_id b + Z.of_nat (length (sent_ids tr)).

(** What a step keeps of the outlinks query: the counter stays positive;
    once an id is waited for it stays waited for and no query is sent;
    at most one query is sent, and then its id is waited for. *)
Definition asks_once (b : Browser.t) (tr : list Browser.event) (b' : Browser.t) : Prop :=
  1 ≤ Browser.command_id b →
  1 ≤ Browser.command_id b'
  ∧ (Browser.truthy_id (Browser._waiting_on_outlinks_msg_id b) = true →
     Browser.truthy_id (Browser._waiting_on_outlinks_msg_id b') = true
     ∧ outlinks_queries tr = 0%nat)
  ∧ (outlinks_queries tr ≤ 1)%nat
  ∧ (outlinks_queries tr = 1%nat →
     Browser.truthy_id (Browser._waiting_on_outlinks_msg_id b') = true).


(** What a visit reads of the browser it starts from: the attributes that
    the constructor and [start()] set, the counter, the abort flag and the
    behavior. *)
Definition same_between_visits (b b' : Browser.t) : Prop :=
  Browser.command_id b' = Browser.command_id b
  ∧ Browser.chrome_port b' = Browser.chrome_port b
  ∧ Browser.chrome_exe b' = Browser.chrome_exe b
  ∧ Browser.proxy b' = Browser.proxy b
  ∧ Browser.ignore_cert_errors b' = Browser.ignore_cert_errors b
  ∧ Browser._behavior b' = Browser._behavior b
  ∧ Browser._abort_browse_page b' = Browser._abort_browse_page b
  ∧ Browser._chrome_instance b' = Browser._chrome_instance b
  ∧ Browser._work_dir b' = Browser._work_dir b
  ∧ Browser._websocket_url b' = Browser._websocket_url b.

(** * Properties *)

Set Warnings "-clear-no-such-hyp".

(** ** BrowserPool *)

Section PoolFacts.
Import BrowserPool.

Lemma pop_Some choice s x rest :
  pop choice s = Some (x, rest) → x ∈ s ∧ rest = s ∖ {[x]}.
Proof.
  unfold pop. destruct (elements s !! _) as [y|] eqn:E; [|done].
  intros [= <- <-]. split; [|done].
  apply elem_of_elements. eapply list_elem_of_lookup_2. exact E.
Qed.

Lemma pop_None choice s : pop choice s = None → s = ∅.
Proof.
  unfold pop. destruct (elements s) as [|y l] eqn:E.
  - intros _. by apply elements_empty_inv, leibniz_equiv in E.
  - destruct ((y :: l) !! _) eqn:E'; [done|]. intros _.
    apply lookup_ge_None in E'.
    pose proof (Nat.mod_upper_bound choice (length (y :: l))) as Hlt.
    simpl in *. lia.
Qed.

(** The construction loop adds [n] new references, all of them fresh. *)
Lemma create_spec kw n : ∀ i available heap available' heap',
  available ⊆ dom heap →
  create kw i n available heap = (available', heap') →
  available' ⊆ dom heap'
  ∧ available ⊆ available'
  ∧ size available' = (size available + n)%nat
  ∧ (∀ r, r ∈ available' → r ∉ available → r ∉ dom heap)
  ∧ (∀ r, r ∈ dom heap → heap' !! r = heap !! r).
Proof.
  induction n as [|n IH]; intros i available heap available' heap' Hsub; simpl.
  - intros [= <- <-]. split_and!; auto with lia.
  - intros Hc. apply IH in Hc as (H1 & H2 & H3 & H4 & H5).
    + pose proof (is_fresh (dom heap)) as Hfresh.
      assert (fresh (dom heap) ∉ available) as Hna by set_solver.
      repeat split.
      * done.
      * set_solver.
      * rewrite H3, size_union, size_singleton by set_solver. lia.
      * intros r Hr Hr' Hd. destruct (decide (r = fresh (dom heap))) as [->|Hne]; [done|].
        apply (H4 r Hr); [set_solver|]. rewrite dom_insert_L. set_solver.
      * intros r Hr. rewrite H5 by (rewrite dom_insert_L; set_solver).
        apply lookup_insert_ne. intros Heq. rewrite <- Heq in Hr. done.
    + rewrite dom_insert_L. set_solver.
Qed.

Lemma init_size n kw heap :
  size (_available (__init__ n kw heap).1) = n
  ∧ _in_use (__init__ n kw heap).1 = ∅.
Proof.
  unfold __init__. destruct (create kw 0 n ∅ heap) as [a h] eqn:E. simpl.
  apply create_spec in E as (_ & _ & H & _); [|set_solver].
  rewrite size_empty in H. done.
Qed.

(** The two sets never share an element, whatever is called. *)
Lemma do_call_disjoint c p heap :
  _available p ## _in_use p →
  _available (do_call c (p, heap)).1.1 ## _in_use (do_call c (p, heap)).1.1.
Proof.
  intros Hd. destruct c as [choice|r|]; simpl.
  - unfold acquire. destruct (pop choice (_available p)) as [[x rest]|] eqn:E; simpl; [|done].
    apply pop_Some in E as [Hx ->]. set_solver.
  - unfold release. destruct (decide (r ∈ _in_use p)); simpl; set_solver.
  - done.
Qed.

Lemma run_cons c calls st : run (c :: calls) st = run calls (do_call c st).1.
Proof. reflexivity. Qed.

Lemma run_disjoint calls : ∀ p heap,
  _available p ## _in_use p →
  _available (run calls (p, heap)).1 ## _in_use (run calls (p, heap)).1.
Proof.
  induction calls as [|c calls IH]; intros p heap Hd; [done|].
  rewrite run_cons. pose proof (do_call_disjoint c p heap Hd) as H.
  destruct (do_call c (p, heap)) as [[p' heap'] tr]. by apply IH.
Qed.

(** The union is kept by every call that releases a member of it. *)
Lemma do_call_union c p heap :
  _available p ## _in_use p →
  (∀ r, c = Release r → r ∈ _available p ∪ _in_use p) →
  _available (do_call c (p, heap)).1.1 ∪ _in_use (do_call c (p, heap)).1.1
  = _available p ∪ _in_use p.
Proof.
  intros Hd Hr. destruct c as [choice|r|]; simpl.
  - unfold acquire. destruct (pop choice (_available p)) as [[x rest]|] eqn:E; simpl; [|done].
    apply pop_Some in E as [Hx ->].
    apply set_eq. intros y. rewrite !elem_of_union, elem_of_difference, elem_of_singleton.
    destruct (decide (y = x)) as [->|]; naive_solver.
  - specialize (Hr r eq_refl). unfold release.
    destruct (decide (r ∈ _in_use p)); simpl.
    + apply set_eq. intros y.
      rewrite !elem_of_union, elem_of_difference, elem_of_singleton.
      destruct (decide (y = r)) as [->|]; naive_solver.
    + set_solver.
  - done.
Qed.

Lemma run_union calls : ∀ p heap,
  _available p ## _in_use p →
  Forall (λ r, r ∈ _available p ∪ _in_use p) (released calls) →
  _available (run calls (p, heap)).1 ∪ _in_use (run calls (p, heap)).1
  = _available p ∪ _in_use p.
Proof.
  induction calls as [|c calls IH]; intros p heap Hd Hrel; [done|].
  rewrite run_cons.
  pose proof (do_call_disjoint c p heap Hd) as Hd'.
  assert (∀ r, c = Release r → r ∈ _available p ∪ _in_use p) as Hc.
  { intros r ->. simpl in Hrel. by apply Forall_cons in Hrel as [? _]. }
  pose proof (do_call_union c p heap Hd Hc) as Hu.
  destruct (do_call c (p, heap)) as [[p' heap'] tr] eqn:E. simpl in *.
  rewrite IH; [done|done|]. rewrite Hu.
  destruct c; simpl in Hrel; [done| |done]. by apply Forall_cons in Hrel as [_ ?].
Qed.

Lemma acquire_under_lock choice p : under_lock (acquire choice p).2.
Proof.
  unfold acquire. destruct (pop choice (_available p)) as [[x rest]|]; simpl.
  - by exists [AvailablePop x; InUseAdd x].
  - by exists [].
Qed.

Lemma release_under_lock r p : under_lock (release r p).2.
Proof.
  unfold release. destruct (decide (r ∈ _in_use p)); simpl.
  - by exists [AvailableAdd r; InUseRemove r].
  - by exists [AvailableAdd r].
Qed.

End PoolFacts.

Section PoolClaims.
Import BrowserPool.

Lemma foldl_alter_lookup {A} (f : A → A) (l : list ref) :
  ∀ (h : gmap ref A) (r : ref), NoDup l →
    foldl (λ h b, alter f b h) h l !! r
    = if decide (r ∈ l) then f <$> h !! r else h !! r.
Proof.
  induction l as [|x l IH]; intros h r Hnd.
  - cbn [foldl]. case_decide as H; [|done]. by apply not_elem_of_nil in H.
  - apply NoDup_cons in Hnd as [Hx Hnd]. cbn [foldl]. rewrite IH by done.
    destruct (decide (r = x)) as [->|Hne].
    + rewrite lookup_alter_eq. do 2 case_decide; try done.
      exfalso. set_solver.
    + rewrite lookup_alter_ne by done.
      do 2 case_decide; try done; exfalso; set_solver.
Qed.

(** C1 (as amended).  From construction on, through any sequence of
    calls whatever: the two sets are disjoint; a successful [acquire] moves
    one browser from available to in-use, a failing one finds available
    empty and changes nothing; [release] of a browser in use moves it back;
    both run as one critical section of the lock.  Through any sequence of
    calls in which [release] is only given browsers made by the pool, the
    union of the two sets moreover has [size] elements and is the set the
    constructor made. *)
Theorem pool_partition_invariant (n : nat) (kw : kwargs)
    (heap : gmap ref Browser.t) (calls : list call) :
  let st0 := __init__ n kw heap in
  let drivers := _available st0.1 in
  let p := (run calls st0).1 in
  _available p ## _in_use p
  ∧ (Forall (λ r, r ∈ drivers) (released calls) →
     size (_available p ∪ _in_use p) = n
     ∧ _available p ∪ _in_use p = drivers)
  ∧ (∀ choice,
       under_lock (acquire choice p).2
       ∧ match (acquire choice p).1.1 with
         | Done b =>
             b ∈ _available p
             ∧ _available (acquire choice p).1.2 = _available p ∖ {[b]}
             ∧ _in_use (acquire choice p).1.2 = {[b]} ∪ _in_use p
         | Raise e =>
             e = KeyError ∧ _available p = ∅ ∧ (acquire choice p).1.2 = p
         | Running => False
         end)
  ∧ (∀ b, b ∈ _in_use p →
       release b p
       = (Done (),
          {| _available := {[b]} ∪ _available p;
             _in_use := _in_use p ∖ {[b]} |},
          [LockAcquire; AvailableAdd b; InUseRemove b; LockRelease])
       ∧ under_lock (release b p).2).
Proof.
  intros st0 drivers p.
  destruct (init_size n kw heap) as [Hsize Hin].
  fold st0 in Hsize, Hin. fold drivers in Hsize.
  assert (_available st0.1 ## _in_use st0.1) as Hd0 by (rewrite Hin; set_solver).
  assert (_available st0.1 ∪ _in_use st0.1 = drivers) as Hu0.
  { rewrite Hin. unfold drivers. set_solver. }
  destruct st0 as [p0 heap0] eqn:Est. simpl in *.
  split_and!.
  - by apply run_disjoint.
  - intros Hrel.
    assert (_available p ∪ _in_use p = drivers) as Hu.
    { unfold p. rewrite run_union; [done|done|]. by rewrite Hu0. }
    split; [by rewrite Hu|done].
  - intros choice. split; [apply acquire_under_lock|].
    unfold acquire. destruct (pop choice (_available p)) as [[x rest]|] eqn:E; simpl.
    + by apply pop_Some in E as [? ->].
    + by apply pop_None in E.
  - intros b Hb. split; [|apply release_under_lock].
    unfold release. by rewrite decide_True.
Qed.

(** C9 (as amended).  [release] of a browser that is not in use raises
    [KeyError] after [_available.add]; the in-use set is untouched and the
    lock is released.  The pool is left as it was when the browser was
    already available (a second release, a browser never acquired); it is
    changed when the browser is foreign to the pool: available and the
    union then have one element more, and the sets are still disjoint. *)
Theorem release_not_in_use (p : t) (d : ref) :
  d ∉ _in_use p →
  release d p
  = (Raise KeyError,
     {| _available := {[d]} ∪ _available p; _in_use := _in_use p |},
     [LockAcquire; AvailableAdd d; LockRelease])
  ∧ (d ∈ _available p → (release d p).1.2 = p)
  ∧ (d ∉ _available p →
       size (_available (release d p).1.2) = S (size (_available p))
       ∧ size (_available (release d p).1.2 ∪ _in_use (release d p).1.2)
         = S (size (_available p ∪ _in_use p)))
  ∧ (_available p ## _in_use p →
       _available (release d p).1.2 ## _in_use (release d p).1.2).
Proof.
  intros Hd. unfold release. rewrite decide_False by done. simpl.
  split_and!.
  - done.
  - intros Ha. destruct p as [a u]. simpl in *. f_equal. set_solver.
  - intros Ha. split.
    + rewrite size_union, size_singleton by set_solver. done.
    + replace ({[d]} ∪ _available p ∪ _in_use p)
        with ({[d]} ∪ (_available p ∪ _in_use p)) by set_solver.
      rewrite size_union, size_singleton by set_solver. done.
  - set_solver.
Qed.

(** C10.  [shutdown_now] returns the pool as it was, sets the abort flag
    of every browser in use and of no other, changes nothing else in the
    heap, calls [abort_browse_page] once per browser in use and never
    touches the lock. *)
Theorem shutdown_now_frame (p : t) (heap : gmap ref Browser.t) :
  (shutdown_now p heap).1.1 = p
  ∧ (∀ r, r ∈ _in_use p →
       (shutdown_now p heap).1.2 !! r
       = Browser.set_abort_browse_page true <$> heap !! r)
  ∧ (∀ r, r ∉ _in_use p → (shutdown_now p heap).1.2 !! r = heap !! r)
  ∧ (∀ r b, (shutdown_now p heap).1.2 !! r = Some b → r ∈ _in_use p →
       Browser._abort_browse_page b = true)
  ∧ (∀ e, e ∈ (shutdown_now p heap).2 ↔
          ∃ r, r ∈ _in_use p ∧ e = AbortBrowsePage r)
  ∧ NoDup (shutdown_now p heap).2
  ∧ forallb (λ e, negb (is_lock e)) (shutdown_now p heap).2 = true.
Proof.
  unfold shutdown_now. simpl.
  assert (∀ r, foldl (λ h b, alter Browser.abort_browse_page b h) heap
                 (elements (_in_use p)) !! r
               = if decide (r ∈ _in_use p)
                 then Browser.abort_browse_page <$> heap !! r else heap !! r) as Hl.
  { intros r. rewrite foldl_alter_lookup by apply NoDup_elements.
    destruct (decide (r ∈ elements (_in_use p))) as [H|H];
      rewrite elem_of_elements in H.
    - by rewrite decide_True.
    - by rewrite decide_False. }
  split_and!.
  - done.
  - intros r Hr. rewrite Hl. by rewrite decide_True.
  - intros r Hr. rewrite Hl. by rewrite decide_False.
  - intros r b Hb Hr. rewrite Hl, decide_True in Hb by done.
    destruct (heap !! r); simplify_eq/=. done.
  - intros e. rewrite list_elem_of_fmap. setoid_rewrite elem_of_elements.
    naive_solver.
  - apply NoDup_fmap_2; [|apply NoDup_elements]. by intros ?? [=].
  - apply forallb_forall. intros e He. apply list_elem_of_In in He.
    apply list_elem_of_fmap in He as (r & -> & _). done.
Qed.

End PoolClaims.

(** Closes a decidable goal about concrete data by evaluating its decision
    procedure. *)
Ltac decide_by_computation :=
  lazymatch goal with
  | |- ?P =>
      let d := constr:(_ : Decision P) in
      apply (@bool_decide_unpack P d); vm_compute; exact I
  end.

Section PoolExamples.
Import BrowserPool.

(** C1, counterexample.  A pool of size 1 is built next to a browser that
    the caller made itself; [release] of that browser puts it in the
    available set, and the union then has two elements. *)
Lemma foreign_release_breaks_partition :
  let kw := {| chrome_exe := "chromium-browser"; proxy := None;
               ignore_cert_errors := false |} in
  let heap : gmap ref Browser.t :=
    {[ 0%nat := Browser.__init__ 9222 "chromium-browser" None false ]} in
  let st0 := __init__ 1 kw heap in
  let p := (run [Release 0%nat] st0).1 in
  _available st0.1 = {[ 1%nat ]}
  ∧ _in_use p = ∅
  ∧ _available p = {[ 0%nat; 1%nat ]}
  ∧ size (_available p ∪ _in_use p) ≠ 1%nat.
Proof. vm_compute. split_and!; [reflexivity..|discriminate]. Qed.

(** C1, witness: two acquires, a third that fails, a release and a fourth
    acquire, on a pool of size 2. *)
Lemma pool_partition_witness :
  let kw := {| chrome_exe := "chromium-browser"; proxy := None;
               ignore_cert_errors := false |} in
  let calls := [Acquire 0; Acquire 0; Acquire 0; Release 0%nat; Acquire 0] in
  let p := (run calls (__init__ 2 kw ∅)).1 in
  Forall (λ r, r ∈ _available (__init__ 2 kw ∅).1) (released calls)
  ∧ _available p ## _in_use p
  ∧ size (_available p ∪ _in_use p) = 2%nat.
Proof.
  intros kw calls p.
  assert (Forall (λ r, r ∈ _available (__init__ 2 kw ∅).1) (released calls)) as H.
  { decide_by_computation. }
  split; [exact H|].
  destruct (pool_partition_invariant 2 kw ∅ calls) as (H1 & H2 & _).
  split; [exact H1 | exact (proj1 (H2 H))].
Defined.

(** C9, counterexample.  A second [release] of the same browser raises
    [KeyError] and leaves the pool exactly as it was: available does not
    grow and the union still has as many elements as the pool. *)
Lemma double_release_keeps_pool :
  let kw := {| chrome_exe := "chromium-browser"; proxy := None;
               ignore_cert_errors := false |} in
  let p := (run [Acquire 0; Release 0%nat] (__init__ 1 kw ∅)).1 in
  (0%nat ∉ _in_use p)
  ∧ (release 0%nat p).1.1 = Raise KeyError
  ∧ (release 0%nat p).1.2 = p
  ∧ size (_available (release 0%nat p).1.2) = size (_available p)
  ∧ size (_available (release 0%nat p).1.2 ∪ _in_use (release 0%nat p).1.2) = 1%nat.
Proof.
  split_and!; [|vm_compute; reflexivity..].
  decide_by_computation.
Qed.

(** C9, witness: a browser foreign to a pool of size 1. *)
Lemma release_not_in_use_witness :
  let kw := {| chrome_exe := "chromium-browser"; proxy := None;
               ignore_cert_errors := false |} in
  let p := (__init__ 1 kw ∅).1 in
  (5%nat ∉ _in_use p)
  ∧ (release 5%nat p).1.1 = Raise KeyError.
Proof.
  intros kw p.
  assert (5%nat ∉ _in_use p) as H.
  { decide_by_computation. }
  split; [exact H|].
  destruct (release_not_in_use p 5%nat H) as [-> _]. reflexivity.
Defined.

End PoolExamples.

(** ** Chrome *)

Section ChromeFacts.
Import Chrome.

Lemma about_blank_entries_all l :
  Forall (λ x, is_Some (url x)) l →
  about_blank_entries l = Some (filter (λ x, url x = Some "about:blank") l).
Proof.
  induction 1 as [|x l [u Hu] _ IH]; [done|].
  cbn [about_blank_entries]. rewrite Hu, IH, filter_cons.
  destruct (decide (u = "about:blank")) as [->|Hne].
  - by rewrite decide_True by done.
  - rewrite decide_False; [done|]. rewrite Hu. by intros [= ?].
Qed.

Lemma about_blank_entries_missing l :
  Exists (λ x, url x = None) l → about_blank_entries l = None.
Proof.
  induction 1 as [x l Hx|x l _ IH]; cbn [about_blank_entries].
  - by rewrite Hx.
  - destruct (url x); [|done]. by rewrite IH.
Qed.

(** Iterations that find nothing before the timeout are passed over:
    each leaves a GET and a sleep in the trace. *)
Lemma start_loop_waiting get started rest waiting :
  Forall (λ o, poll_once o.1 = None ∧ o.2 - started ≤ timeout_sec_start * 1000)
         waiting →
  start_loop get started (waiting ++ rest)
  = ((start_loop get started rest).1,
     flat_map (λ _, [HttpGet get; Sleep]) waiting
     ++ (start_loop get started rest).2).
Proof.
  induction 1 as [|[response now] waiting [Hp Ht] _ IH].
  - simpl. by destruct (start_loop get started rest).
  - cbn [app start_loop flat_map]. simpl in Hp, Ht. rewrite Hp.
    rewrite decide_False by lia. rewrite IH. done.
Qed.

(** The loop of [stop] ends when every sleep lasts at least half a
    second and the observations cover the time left.  It sends no
    [SIGKILL] and touches no directory; it leaves with a collected exit
    status or, at the timeout, with the process as it was. *)
Lemma stop_loop_total obs : ∀ first_sigterm last_sigterm now p,
  Forall (λ o, 500 ≤ o.1) obs →
  first_sigterm + timeout_sec_stop * 1000 - now ≤ 500 * Z.of_nat (length obs) →
  ∃ e p' tr,
    stop_loop obs first_sigterm last_sigterm now p = Some (e, p', tr)
    ∧ pid p' = pid p
    ∧ (e = Exited → is_Some (returncode p'))
    ∧ (e = TimedOut → p' = p)
    ∧ Forall (λ s, touches_fs s = false ∧ s ≠ Signal (pid p) SIGKILL
                   ∧ s ≠ Wait (pid p)) tr.
Proof.
  induction obs as [|[slept status] obs IH];
    intros first_sigterm last_sigterm now p Hsl Hlen;
    cbn [stop_loop]; case_decide as Hin.
  - simpl in Hlen. lia.
  - exists TimedOut, p, []. split_and!; by eauto.
  - apply Forall_cons in Hsl as [Hs Hsl]. simpl in Hs.
    assert (first_sigterm + timeout_sec_stop * 1000 - (now + slept)
            ≤ 500 * Z.of_nat (length obs)) as Hlen'.
    { rewrite length_cons in Hlen. lia. }
    destruct status as [st|].
    + exists Exited, (reaped st p), [Sleep; Poll (pid p)].
      split_and!; [done|done|by eauto|done|]. repeat constructor; done.
    + case_decide.
      * destruct (IH first_sigterm (now + slept) (now + slept) p Hsl Hlen')
          as (e & p' & tr & -> & ? & ? & ? & ?).
        exists e, p', (Sleep :: Poll (pid p) :: Signal (pid p) SIGTERM :: tr).
        split_and!; [done..|]. repeat (constructor; [done|]). done.
      * destruct (IH first_sigterm last_sigterm (now + slept) p Hsl Hlen')
          as (e & p' & tr & -> & ? & ? & ? & ?).
        exists e, p', (Sleep :: Poll (pid p) :: tr).
        split_and!; [done..|]. repeat (constructor; [done|]). done.
  - exists TimedOut, p, []. split_and!; by eauto.
Qed.

Lemma fs_run_app tr1 tr2 fs : fs_run (tr1 ++ tr2) fs = fs_run tr2 (fs_run tr1 fs).
Proof. apply foldl_app. Qed.

Lemma fs_run_untouched tr fs :
  Forall (λ s, touches_fs s = false) tr → fs_run tr fs = fs.
Proof.
  intros H. revert fs. induction H as [|s tr Hs _ IH]; intros fs; [done|].
  cbn [fs_run foldl]. fold (fs_run tr (fs_step s fs)). rewrite IH.
  by destruct s.
Qed.

Lemma fs_run_rmtree d fs p : p ∈ fs_run [Rmtree d] fs ↔ p ∈ fs ∧ ¬ below d p.
Proof. cbn. rewrite elem_of_filter. tauto. Qed.

End ChromeFacts.

Section ChromeClaims.
Import Chrome.

Lemma poll_once_first l :
  Forall (λ x, is_Some (url x)) l →
  poll_once (Some l)
  = head (filter (λ x, url x = Some "about:blank") l) ≫= webSocketDebuggerUrl.
Proof.
  intros H. unfold poll_once. rewrite about_blank_entries_all by done.
  by destruct (filter _ l).
Qed.

Lemma unique_ready_target_first l :
  (length (filter (λ x, url x = Some "about:blank") l) ≤ 1)%nat →
  unique_ready_target l
  = head (filter (λ x, url x = Some "about:blank") l) ≫= webSocketDebuggerUrl.
Proof.
  intros Hlen. unfold unique_ready_target.
  rewrite <- (list_filter_filter_l
                (λ x, url x = Some "about:blank" ∧ is_Some (webSocketDebuggerUrl x))
                (λ x, url x = Some "about:blank"))
    by tauto.
  destruct (filter (λ x, url x = Some "about:blank") l) as [|d [|d' l']] eqn:E.
  - done.
  - assert (url d = Some "about:blank") as Hd.
    { assert (d ∈ filter (λ x, url x = Some "about:blank") l) as Hin
        by (rewrite E; left).
      by apply list_elem_of_filter in Hin as [? _]. }
    rewrite filter_cons, filter_nil. simpl.
    destruct (webSocketDebuggerUrl d) as [w|] eqn:Ew.
    + rewrite decide_True by eauto. simpl. done.
    + rewrite decide_False; [done|]. intros [_ [? ?]]. done.
  - simpl in Hlen. lia.
Qed.

(** C5 (as amended).  [start] spawns chrome and then, per iteration,
    GETs the json url and sleeps.  After iterations that found nothing
    within the timeout: an iteration whose response has a [url] in every
    descriptor and a [webSocketDebuggerUrl] in the first descriptor whose
    [url] is about:blank returns that URL, if the clock read after the GET
    is at most 600 s after the spawn; an iteration after which the clock
    is later raises, whatever the response, and the process is neither
    signalled nor collected.  The descriptor chosen is the first one with
    [url] about:blank; it is the unique ready one when at most one
    descriptor has that [url]. *)
Theorem chrome_start_polling (c : t) (new_pid spawned : Z)
    (waiting : list (option (list target) * Z))
    (response : option (list target)) (now : Z)
    (rest : list (option (list target) * Z)) :
  Forall (λ o, poll_once o.1 = None ∧ o.2 - spawned ≤ timeout_sec_start * 1000)
         waiting →
  let r := start (Some new_pid) spawned (waiting ++ (response, now) :: rest) c in
  let polls := flat_map (λ _, [HttpGet (json_url c); Sleep]) waiting in
  (now - spawned ≤ 600 * 1000 → ∀ u, poll_once response = Some u →
     r.1.1 = Done u
     ∧ r.2 = Spawn (chrome_args c) (user_home_dir c)
             :: polls ++ [HttpGet (json_url c); Sleep])
  ∧ (now - spawned > 600 * 1000 →
     r.1.1 = Raise StartupFailure
     ∧ r.2 = Spawn (chrome_args c) (user_home_dir c)
             :: polls ++ [HttpGet (json_url c)]
     ∧ chrome_process r.1.2 = Some {| pid := new_pid; returncode := None |}
     ∧ Forall (λ s, touches_process s = false) r.2)
  ∧ (∀ l, Forall (λ x, is_Some (url x)) l →
       poll_once (Some l)
       = head (filter (λ x, url x = Some "about:blank") l)
         ≫= webSocketDebuggerUrl)
  ∧ (∀ l, Forall (λ x, is_Some (url x)) l →
       (length (filter (λ x, url x = Some "about:blank") l) ≤ 1)%nat →
       poll_once (Some l) = unique_ready_target l)
  ∧ (∀ l, Exists (λ x, url x = None) l → poll_once (Some l) = None)
  ∧ poll_once None = None.
Proof.
  intros Hw r polls. unfold r, start. rewrite start_loop_waiting by done.
  cbn [start_loop]. fold polls. split_and!.
  - intros Ht u Hu. rewrite Hu.
    rewrite decide_False by (unfold timeout_sec_start; lia). done.
  - intros Ht. rewrite decide_True by (unfold timeout_sec_start; lia).
    simpl. split_and!; [done..|].
    constructor; [done|]. apply Forall_app. split; [|by repeat constructor].
    unfold polls. clear. induction waiting; simpl; by repeat constructor.
  - apply poll_once_first.
  - intros l Hl Hlen. rewrite poll_once_first, unique_ready_target_first; done.
  - intros l Hl. unfold poll_once. by rewrite about_blank_entries_missing.
  - done.
Qed.

(** C5, counterexample.  The response lists two descriptors with [url]
    about:blank, of which only the second has a [webSocketDebuggerUrl]:
    it is the unique ready one, and it is there at the first poll, half a
    second after the spawn; [start] looks at the first descriptor only,
    keeps polling, and raises after the timeout. *)
Lemma start_misses_unique_ready_target :
  let l := [ {| url := Some "about:blank"; webSocketDebuggerUrl := None |};
             {| url := Some "about:blank";
                webSocketDebuggerUrl := Some "ws://localhost:9200/devtools/page/2" |} ] in
  let c := __init__ 9200 "chromium-browser" "/tmp/tmpx" "/tmp/tmpx/chrome-user-data"
             None false in
  unique_ready_target l = Some "ws://localhost:9200/devtools/page/2"
  ∧ poll_once (Some l) = None
  ∧ (start (Some 4242) 0 [(Some l, 500); (Some l, 1000); (Some l, 600001)] c).1.1
    = Raise StartupFailure.
Proof. vm_compute. done. Qed.

(** C5, witness: connection refused twice, then a list with the window. *)
Lemma chrome_start_polling_witness :
  let l := [ {| url := Some "chrome://newtab/"; webSocketDebuggerUrl := Some "ws://a" |};
             {| url := Some "about:blank"; webSocketDebuggerUrl := Some "ws://b" |} ] in
  let c := __init__ 9200 "chromium-browser" "/tmp/tmpx" "/tmp/tmpx/chrome-user-data"
             None false in
  let waiting := [(None, 100); (None, 700)] in
  Forall (λ o, poll_once o.1 = None ∧ o.2 - 0 ≤ timeout_sec_start * 1000) waiting
  ∧ (start (Some 4242) 0 (waiting ++ [(Some l, 1300)]) c).1.1 = Done "ws://b".
Proof.
  intros l c waiting.
  assert (Forall (λ o, poll_once o.1 = None ∧ o.2 - 0 ≤ timeout_sec_start * 1000)
                 waiting) as H.
  { repeat constructor; vm_compute; discriminate. }
  split; [exact H|].
  destruct (chrome_start_polling c 4242 0 waiting (Some l) 1300 [] H) as [Hok _].
  apply Hok; [lia | reflexivity].
Defined.

End ChromeClaims.

Section StopClaims.
Import Chrome.

Lemma strip_prefix_app p s : strip_prefix p (p +:+ s) = Some s.
Proof.
  induction p as [|a p IH]; simpl; [by destruct s|].
  by rewrite decide_True.
Qed.

Lemma prefix_app d a b :
  String.prefix a b = true → String.prefix (d +:+ a) (d +:+ b) = true.
Proof.
  intros H. induction d as [|x d IH]; simpl; [done|].
  by destruct (ascii_dec x x).
Qed.

Lemma profile_dir_chrome_args c : profile_dir (chrome_args c) = Some (user_data_dir c).
Proof.
  unfold profile_dir, chrome_args. reflexivity.
Qed.

(** The whole of [Chrome.stop], for observations that cover the
    timeout. *)
Lemma chrome_stop_total c p now obs wait_status :
  chrome_process c = Some p →
  Forall (λ o, 500 ≤ o.1) obs →
  (600 ≤ length obs)%nat →
  ∃ c' p' tr,
    stop now obs wait_status c = Done (c', tr)
    ∧ chrome_process c' = Some p' ∧ alive p' = false ∧ pid p' = pid p
    ∧ head tr = Some (Signal (pid p) SIGTERM)
    ∧ (((Signal (pid p) SIGKILL ∉ tr) ∧ (Wait (pid p) ∉ tr))
       ∨ (∃ tr0, tr = tr0 ++ [Signal (pid p) SIGKILL; Wait (pid p)]
                 ∧ (Signal (pid p) SIGKILL ∉ tr0)
                 ∧ returncode p' = Some wait_status))
    ∧ Forall (λ s, touches_fs s = false) tr.
Proof.
  intros Hp Hsl Hlen. unfold stop. rewrite Hp.
  destruct (stop_loop_total obs now now now p Hsl) as (e & p' & tr & -> & Hpid & He & Ht & Htr).
  { unfold timeout_sec_stop. lia. }
  assert (Forall (λ s, touches_fs s = false) tr) as Hfs
    by (eapply Forall_impl; [exact Htr|]; naive_solver).
  assert (Signal (pid p) SIGKILL ∉ tr) as Hk.
  { intros Hin. rewrite Forall_forall in Htr. by destruct (Htr _ Hin) as (_ & ? & _). }
  assert (Wait (pid p) ∉ tr) as Hwt.
  { intros Hin. rewrite Forall_forall in Htr. by destruct (Htr _ Hin) as (_ & _ & ?). }
  destruct e.
  - destruct (He eq_refl) as [st Hst].
    exists (with_process p' (_start c) c), p', (Signal (pid p) SIGTERM :: tr).
    split_and!; [done|done| |done|done| |by constructor].
    + unfold alive. by rewrite Hst.
    + left. split; intros [?|?]%elem_of_cons; done.
  - exists (with_process (reaped wait_status p') (_start c) c), (reaped wait_status p'),
      (Signal (pid p) SIGTERM :: tr ++ [Signal (pid p) SIGKILL; Wait (pid p)]).
    split_and!; [done|done|done|done|done| |].
    + right. exists (Signal (pid p) SIGTERM :: tr). split_and!; [done| |done].
      intros [?|?]%elem_of_cons; done.
    + constructor; [done|]. apply Forall_app. split; [done|]. by repeat constructor.
Qed.


End StopClaims.

Section StopExamples.
Import Chrome.



(** Twenty-one polls of half a second without an exit, then an exit:
    the second SIGTERM follows the twenty-first poll, 10.5 s after the
    first, and no SIGKILL is sent. *)
Example stop_resends_sigterm :
  let c := with_process {| pid := 4242; returncode := None |} 0
             (__init__ 9200 "chromium-browser" "/tmp/tmpx"
                "/tmp/tmpx/chrome-user-data" None false) in
  ∃ c' tr, stop 0 (replicate 21 (500, None) ++ [(500, Some 0)]) 9 c = Done (c', tr)
           ∧ filter (λ s, touches_process s = true ∧ s ≠ Poll 4242) tr
             = [Signal 4242 SIGTERM; Signal 4242 SIGTERM]
           ∧ tr !! 43%nat = Some (Signal 4242 SIGTERM).
Proof. do 2 eexists. split_and!; [reflexivity| |]; vm_compute; reflexivity. Qed.

(** A browser that still holds the working directory of an earlier
    [start] is started again, and [tempfile] gives the new directory the
    name of the old one, which had been removed by hand: the finalizer of
    the old object then removes the new directory, before chrome is
    spawned. *)
Example restart_removes_directory_of_same_name :
  let started :=
    Browser.start None (Some "/tmp/tmpx") (Some 4243) 0 [] started_browser in
  Browser._work_dir started_browser = Some (Some "/tmp/tmpx")
  ∧ take 2 started.2 = [Mkdtemp "/tmp/tmpx"; Rmtree "/tmp/tmpx"]
  ∧ ("/tmp/tmpx" ∉ fs_run started.2 ∅).
Proof.
  split_and!; [vm_compute; reflexivity..|]. decide_by_computation.
Qed.

End StopExamples.

(** ** Splitting and joining *)

Section SplitFacts.

Lemma append_empty_r s : s +:+ EmptyString = s.
Proof.
  induction s as [|a s IH]; [done|].
  change (String a (s +:+ EmptyString) = String a s). by f_equal.
Qed.

Lemma append_cons a s t : String a s +:+ t = String a (s +:+ t).
Proof. reflexivity. Qed.

Lemma rev_app_append s1 : ∀ s2 t,
  String.rev_app s1 s2 +:+ t = String.rev_app s1 (s2 +:+ t).
Proof. induction s1 as [|a s1 IH]; intros s2 t; simpl; [done|]. by rewrite IH. Qed.

Lemma free_of_rev_app c s1 : ∀ s2,
  free_of c (String.rev_app s1 s2) ↔ free_of c s1 ∧ free_of c s2.
Proof.
  induction s1 as [|a s1 IH]; intros s2; simpl; [tauto|].
  rewrite IH. simpl. tauto.
Qed.

Lemma free_of_rev c s : free_of c (String.rev s) ↔ free_of c s.
Proof. unfold String.rev. rewrite free_of_rev_app. simpl. tauto. Qed.

Lemma split_acc_nonempty sep s : ∀ cur, split_acc sep cur s ≠ [].
Proof. induction s as [|c s IH]; intros cur; simpl; [done|]. by case_decide. Qed.

(** Every field is free of the separator. *)
Lemma split_acc_free sep s : ∀ cur,
  free_of sep cur → Forall (free_of sep) (split_acc sep cur s).
Proof.
  induction s as [|c s IH]; intros cur Hcur; simpl.
  - constructor; [|done]. by apply free_of_rev.
  - case_decide.
    + constructor; [by apply free_of_rev|]. by apply IH.
    + apply IH. simpl. done.
Qed.

(** Joining the fields gives the string back. *)
Lemma join_split_acc sep s : ∀ cur,
  join sep (split_acc sep cur s) = String.rev cur +:+ s.
Proof.
  induction s as [|c s IH]; intros cur; simpl.
  - by rewrite append_empty_r.
  - case_decide as Hc.
    + specialize (IH EmptyString).
      destruct (split_acc sep "" s) as [|y l] eqn:E.
      { by apply split_acc_nonempty in E. }
      change (join sep (String.rev cur :: y :: l))
        with (String.rev cur +:+ String sep (join sep (y :: l))).
      rewrite IH. subst c. done.
    + rewrite IH. unfold String.rev. simpl.
      by rewrite (rev_app_append cur "" (String c s)),
                 (rev_app_append cur (String c "") s).
Qed.

Lemma split_acc_field sep x : ∀ cur rest,
  free_of sep x →
  split_acc sep cur (x +:+ rest) = split_acc sep (String.rev_app x cur) rest.
Proof.
  induction x as [|a x IH]; intros cur rest Hx; simpl; [done|].
  destruct Hx as [Ha Hx]. rewrite decide_False by done. by apply IH.
Qed.

Lemma rev_app_rev_app s1 : ∀ s2 t,
  String.rev_app (String.rev_app s1 s2) t = String.rev_app s2 (s1 +:+ t).
Proof. induction s1 as [|a s1 IH]; intros s2 t; simpl; [done|]. by rewrite IH. Qed.

Lemma rev_rev_field x : String.rev (String.rev_app x EmptyString) = x.
Proof. unfold String.rev. rewrite rev_app_rev_app. simpl. apply append_empty_r. Qed.

(** Splitting the join of fields that are free of the separator gives the
    fields back, unless there is none. *)
Lemma split_join sep l :
  l ≠ [] → Forall (free_of sep) l → split sep (join sep l) = l.
Proof.
  intros Hne Hl. unfold split. induction Hl as [|x l Hx Hl IH]; [done|].
  destruct l as [|y l'].
  - simpl. rewrite <- (append_empty_r x) at 1.
    rewrite split_acc_field by done. simpl. by rewrite rev_rev_field.
  - change (join sep (x :: y :: l')) with (x +:+ String sep (join sep (y :: l'))).
    rewrite split_acc_field by done. cbn [split_acc].
    rewrite decide_True by done. rewrite rev_rev_field, IH; done.
Qed.

End SplitFacts.

(** ** Browser *)

(** Unfolds the methods that make one step of a visit. *)
Ltac unfold_step :=
  unfold Browser._browse_interval_func, Browser.beside, Browser._visit_page,
    Browser._handle_message, Browser.handle_screenshot, Browser.send_each,
    Browser.send_to_chrome, Browser.abort_browse_page in *.

Section BrowserFacts.
Import Browser.

Variable b64decode : string → option string.

Lemma same_visit_refl b : same_visit b b.
Proof. by repeat split. Qed.

Lemma same_visit_trans b1 b2 b3 :
  same_visit b1 b2 → same_visit b2 b3 → same_visit b1 b3.
Proof. unfold same_visit. intros H1 H2. destruct_and!. split_and!; by eauto with congruence. Qed.

Lemma interval_same_visit tk b : same_visit b (_browse_interval_func tk b).1.2.
Proof.
  unfold_step. repeat (case_match || case_decide); simplify_eq/=;
    by repeat split.
Qed.

Lemma interval_not_running tk b : (_browse_interval_func tk b).1.1 ≠ Running.
Proof. unfold_step. repeat (case_match || case_decide); simplify_eq/=; done. Qed.

Lemma beside_same_visit s b : same_visit b (beside b64decode s b).1.
Proof.
  destruct s as [|m w|method param| |tk]; unfold_step; simpl;
    try destruct m; repeat (case_match || case_decide); simplify_eq/=;
    by repeat split.
Qed.

(** A visit that is still in its loop after [sched] goes on with what
    comes next. *)
Lemma browse_loop_app sched : ∀ b b1 tr1 c1 rest,
  browse_loop b64decode sched b = (Running, b1, tr1, c1) →
  browse_loop b64decode (sched ++ rest) b
  = let '(o, b2, tr2, c2) := browse_loop b64decode rest b1 in
    (o, b2, tr1 ++ tr2, c2).
Proof.
  induction sched as [|s sched IH]; intros b b1 tr1 c1 rest.
  - simpl. intros [= <- <- <-]. by destruct (browse_loop b64decode rest b) as [[[??]?]?].
  - destruct s as [|m w|method param| |tk]; cbn [app browse_loop].
    5: { pose proof (interval_not_running tk b) as Hnr.
         destruct (_browse_interval_func tk b) as [[r b'] tr'].
         destruct r as [[[|]|]| |]; simpl in Hnr; try done.
         - destruct (browse_loop b64decode sched b') as [[[o b2] tr2] c2] eqn:E.
           intros [= -> <- <- <-]. rewrite (IH _ _ _ _ rest E).
           destruct (browse_loop b64decode rest b2) as [[[??]?]?]. by rewrite app_assoc.
         - destruct (browse_loop b64decode sched b') as [[[o b2] tr2] c2] eqn:E.
           intros [= -> <- <- <-]. rewrite (IH _ _ _ _ rest E).
           destruct (browse_loop b64decode rest b2) as [[[??]?]?]. by rewrite app_assoc. }
    all: destruct (beside b64decode _ b) as [b' tr'];
      destruct (browse_loop b64decode sched b') as [[[o b2] tr2] c2] eqn:E;
      intros [= -> <- <- <-]; rewrite (IH _ _ _ _ rest E);
      destruct (browse_loop b64decode rest b2) as [[[??]?]?]; by rewrite app_assoc.
Qed.

Lemma browse_loop_same_visit sched : ∀ b,
  same_visit b (browse_loop b64decode sched b).1.1.2.
Proof.
  induction sched as [|s sched IH]; intros b; [apply same_visit_refl|].
  destruct s as [|m w|method param| |tk]; cbn [browse_loop].
  5: { pose proof (interval_same_visit tk b) as Hs.
       destruct (_browse_interval_func tk b) as [[r b'] tr'].
       destruct r as [[[|]|]| |]; simpl in *; try done.
       all: specialize (IH b');
         destruct (browse_loop b64decode sched b') as [[[o b2] tr2] c2];
         simpl in *; by eapply same_visit_trans. }
  all: match goal with |- context [beside b64decode ?s ?b0] =>
         pose proof (beside_same_visit s b0) as Hs;
         destruct (beside b64decode s b0) as [b' tr'] end;
    specialize (IH b');
    destruct (browse_loop b64decode sched b') as [[[o b2] tr2] c2];
    simpl in *; by eapply same_visit_trans.
Qed.

End BrowserFacts.

Section VisitFacts.
Import Browser.

Variable b64decode : string → option string.

(** The three ways a tick can go when the socket is connected and no
    behavior is finished. *)
Lemma tick_timeout tk b :
  is_Some (_websock b) → sock_connected tk = true →
  (_behavior b = None ∨ behavior_finished tk = false) →
  now tk - _start b > HARD_TIMEOUT_SECONDS * 1000 →
  _browse_interval_func tk b = (Done (Some true), b, []).
Proof.
  intros [ws Hws] Hc Hb Ht. unfold _browse_interval_func. rewrite Hws, Hc. simpl.
  destruct Hb as [-> | ->].
  - by rewrite decide_True.
  - destruct (_behavior b); by rewrite decide_True.
Qed.

Lemma tick_abort tk b :
  is_Some (_websock b) → sock_connected tk = true →
  (_behavior b = None ∨ behavior_finished tk = false) →
  now tk - _start b ≤ HARD_TIMEOUT_SECONDS * 1000 →
  _abort_browse_page b = true →
  _browse_interval_func tk b = (Raise BrowsingAborted, b, []).
Proof.
  intros [ws Hws] Hc Hb Ht Ha. unfold _browse_interval_func. rewrite Hws, Hc, Ha. simpl.
  destruct Hb as [-> | ->].
  - by rewrite decide_False by lia.
  - destruct (_behavior b); by rewrite decide_False by lia.
Qed.

Lemma tick_idle tk b :
  is_Some (_websock b) → sock_connected tk = true →
  (_behavior b = None ∨ behavior_finished tk = false) →
  now tk - _start b ≤ HARD_TIMEOUT_SECONDS * 1000 →
  _abort_browse_page b = false →
  _browse_interval_func tk b = (Done None, b, []).
Proof.
  intros [ws Hws] Hc Hb Ht Ha. unfold _browse_interval_func. rewrite Hws, Hc, Ha. simpl.
  destruct Hb as [-> | ->].
  - by rewrite decide_False by lia.
  - destruct (_behavior b); by rewrite decide_False by lia.
Qed.

(** A visit in its loop: what [browse_page] says about it is what
    [browse_loop] says from the state that [begin_visit] makes. *)
Lemma browse_page_running u req shot chg started sched b b1 tr1 :
  browse_page b64decode u req shot chg started sched b = (Running, b1, tr1) →
  ∃ ws c1,
    _websocket_url b = Some ws
    ∧ browse_loop b64decode sched (begin_visit u req shot chg ws started b)
      = (Running, b1, tr1, c1)
    ∧ _start b1 = started ∧ is_Some (_websock b1)
    ∧ (_abort_browse_page b = true → _abort_browse_page b1 = true).
Proof.
  unfold browse_page. destruct (_websocket_url b) as [ws|] eqn:Hws; [|done].
  pose proof (browse_loop_same_visit b64decode sched
                (begin_visit u req shot chg ws started b)) as Hsv.
  destruct (browse_loop b64decode sched _) as [[[o b2] tr2] c2] eqn:E.
  destruct o; simpl; try done. intros [= <- <-].
  exists ws, c2. destruct Hsv as (Hs & Hw & _ & _ & _ & _ & _ & Ha).
  simpl in *. split_and!; [done|done|done| |done]. rewrite Hw. by eexists.
Qed.

(** What a tick does to a visit that is in its loop. *)
Lemma browse_page_tick u req shot chg started sched b b1 tr1 tk rest :
  browse_page b64decode u req shot chg started sched b = (Running, b1, tr1) →
  browse_page b64decode u req shot chg started (sched ++ Tick tk :: rest) b
  = match browse_loop b64decode (Tick tk :: rest) b1 with
    | (Running, b2, tr2, _) => (Running, b2, tr1 ++ tr2)
    | (o, b2, tr2, c) =>
        (o, set_behavior None b2,
         (tr1 ++ tr2) ++ (if c then [WebsockClose] else []))
    end.
Proof.
  intros Hrun. destruct (browse_page_running _ _ _ _ _ _ _ _ _ Hrun)
    as (ws & c1 & Hws & Hloop & _).
  unfold browse_page. rewrite Hws.
  rewrite (browse_loop_app b64decode _ _ _ _ _ (Tick tk :: rest) Hloop).
  destruct (browse_loop b64decode (Tick tk :: rest) b1) as [[[o b2] tr2] c2].
  by destruct o.
Qed.

(** Steps other than ticks leave the visit in its loop. *)
Lemma browse_loop_no_tick sched : ∀ b,
  Forall (λ s, is_tick s = false) sched →
  (browse_loop b64decode sched b).1.1.1 = Running.
Proof.
  induction sched as [|s sched IH]; intros b Hs; [done|].
  apply Forall_cons in Hs as [Hs Hsched].
  destruct s as [|m w|method param| |tk]; try done; cbn [browse_loop].
  all: destruct (beside b64decode _ b) as [b' tr']; specialize (IH b' Hsched);
    by destruct (browse_loop b64decode sched b') as [[[??]?]?].
Qed.

(** A call of [abort_browse_page] during the loop shows in the flag. *)
Lemma browse_loop_abort_call sched : ∀ b b1 tr1 c1,
  browse_loop b64decode sched b = (Running, b1, tr1, c1) →
  AbortCall ∈ sched → _abort_browse_page b1 = true.
Proof.
  induction sched as [|s sched IH]; intros b b1 tr1 c1 Hrun Hin.
  { by apply not_elem_of_nil in Hin. }
  destruct s as [|m w|method param| |tk]; cbn [browse_loop] in Hrun.
  5: { apply elem_of_cons in Hin as [?|Hin]; [done|].
       pose proof (interval_not_running tk b) as Hnr.
       destruct (_browse_interval_func tk b) as [[r b'] tr'].
       destruct r as [[[|]|]| |]; simpl in Hnr; try done.
       all: destruct (browse_loop b64decode sched b') as [[[o b2] tr2] c2] eqn:E;
         simplify_eq/=; by eapply IH. }
  4: { cbn [beside] in Hrun.
       pose proof (browse_loop_same_visit b64decode sched (abort_browse_page b)) as Hsv.
       destruct (browse_loop b64decode sched (abort_browse_page b))
         as [[[o b2] tr2] c2] eqn:E.
       simplify_eq/=. by apply Hsv. }
  all: apply elem_of_cons in Hin as [?|Hin]; [done|];
    destruct (beside b64decode _ b) as [b' tr'];
    destruct (browse_loop b64decode sched b') as [[[o b2] tr2] c2] eqn:E;
    simplify_eq/=; by eapply IH.
Qed.

(** While no behavior is finished and replies carry integer ids, no
    outlinks are asked for and none arrive. *)
Lemma browse_loop_no_outlinks sched : ∀ b,
  Forall (λ s, integer_id s = true ∧ behavior_unfinished s = true) sched →
  _outlinks b = None → _waiting_on_outlinks_msg_id b = None →
  _outlinks (browse_loop b64decode sched b).1.1.2 = None
  ∧ _waiting_on_outlinks_msg_id (browse_loop b64decode sched b).1.1.2 = None.
Proof.
  induction sched as [|s sched IH]; intros b Hs Ho Hw; [done|].
  apply Forall_cons in Hs as [[Hid Hun] Hsched].
  assert (∀ b' tr', beside b64decode s b = (b', tr') →
            _outlinks b' = None ∧ _waiting_on_outlinks_msg_id b' = None) as Hbeside.
  { intros b' tr'. destruct s as [|m w|method param| |tk]; unfold_step; simpl;
      try destruct m as [| | | |[id|] r|]; try done;
      repeat (case_match || case_decide); simplify_eq/=; try done;
      intros; simplify_eq/=; try done; congruence. }
  destruct s as [|m w|method param| |tk]; cbn [browse_loop].
  5: { simpl in Hun. apply negb_true_iff in Hun.
       assert (_browse_interval_func tk b = ((_browse_interval_func tk b).1.1, b, [])) as Hi.
       { unfold _browse_interval_func. rewrite Hun.
         repeat (case_match || case_decide); simplify_eq/=; done. }
       rewrite Hi. destruct ((_browse_interval_func tk b).1.1) as [[[|]|]| |]; simpl; try done.
       all: specialize (IH b Hsched Ho Hw);
         by destruct (browse_loop b64decode sched b) as [[[??]?]?]. }
  all: destruct (beside b64decode _ b) as [b' tr'] eqn:E;
    destruct (Hbeside _ _ eq_refl) as [Ho' Hw'];
    specialize (IH b' Hsched Ho' Hw');
    by destruct (browse_loop b64decode sched b') as [[[??]?]?].
Qed.

End VisitFacts.

Section VisitClaims.
Import Browser.

Variable b64decode : string → option string.

(** A visit in its loop with the abort flag set ends at the next tick. *)
Lemma browse_page_abort_tick u req shot chg started sched b b1 tr1 tk rest :
  browse_page b64decode u req shot chg started sched b = (Running, b1, tr1) →
  _abort_browse_page b = true ∨ AbortCall ∈ sched →
  sock_connected tk = true →
  _behavior b1 = None ∨ behavior_finished tk = false →
  now tk - started ≤ HARD_TIMEOUT_SECONDS * 1000 →
  browse_page b64decode u req shot chg started (sched ++ Tick tk :: rest) b
  = (Raise BrowsingAborted, set_behavior None b1, tr1 ++ [WebsockClose]).
Proof.
  intros Hrun Hab Hc Hb Ht.
  rewrite (browse_page_tick b64decode _ _ _ _ _ _ _ _ _ tk rest Hrun).
  destruct (browse_page_running b64decode _ _ _ _ _ _ _ _ _ Hrun)
    as (ws & c1 & Hws & Hloop & Hs & Hw & Ha).
  assert (_abort_browse_page b1 = true) as Hflag.
  { destruct Hab as [?|Hin]; [by apply Ha|].
    by eapply browse_loop_abort_call. }
  cbn [browse_loop]. rewrite tick_abort by (rewrite ?Hs; done).
  rewrite Hc. by rewrite app_nil_r.
Qed.

(** C2 (as amended).  For a visit in its loop on which
    [abort_browse_page] has been called, before or during the visit: the
    next tick makes [browse_page] raise [BrowsingAborted], after the
    teardown, when at that tick the socket is connected, no behavior is
    finished and at most 1200 s have passed since the start.  A tick tests,
    in this order: the socket (raise [BrowsingException]); a finished
    behavior, with outlinks (return) or else without an id waited for (send
    the outlinks query, go on); the hard timeout (return); the abort flag
    (raise); otherwise it goes on. *)
Theorem abort_raises_at_next_tick (u : string) (req shot chg : bool) (started : Z)
    (sched : list step) (b b1 : t) (tr1 : list event) (tk : tick) (rest : list step) :
  browse_page b64decode u req shot chg started sched b = (Running, b1, tr1) →
  _abort_browse_page b = true ∨ AbortCall ∈ sched →
  sock_connected tk = true →
  _behavior b1 = None ∨ behavior_finished tk = false →
  now tk - started ≤ HARD_TIMEOUT_SECONDS * 1000 →
  browse_page b64decode u req shot chg started (sched ++ Tick tk :: rest) b
  = (Raise BrowsingAborted, set_behavior None b1, tr1 ++ [WebsockClose])
  ∧ (∀ (tk : tick) (b : t),
       (_websock b = None ∨ sock_connected tk = false →
          _browse_interval_func tk b = (Raise BrowsingException, b, []))
       ∧ (is_Some (_websock b) → sock_connected tk = true →
            (is_Some (_behavior b) → behavior_finished tk = true →
               (truthy_outlinks (_outlinks b) = true →
                  _browse_interval_func tk b = (Done (Some true), b, []))
               ∧ (truthy_outlinks (_outlinks b) = false →
                  truthy_id (_waiting_on_outlinks_msg_id b) = false →
                  _browse_interval_func tk b
                  = (Done (Some false),
                     set_waiting_on_outlinks_msg_id (Some (command_id b))
                       (set_command_id (command_id b + 1) b),
                     [Sent (command_id b) "Runtime.evaluate" outlinks_expression])))
            ∧ (_behavior b = None ∨ behavior_finished tk = false →
                 (now tk - _start b > 1200 * 1000 →
                    _browse_interval_func tk b = (Done (Some true), b, []))
                 ∧ (now tk - _start b ≤ 1200 * 1000 →
                    _abort_browse_page b = true →
                    _browse_interval_func tk b = (Raise BrowsingAborted, b, []))
                 ∧ (now tk - _start b ≤ 1200 * 1000 →
                    _abort_browse_page b = false →
                    _browse_interval_func tk b = (Done None, b, []))))).
Proof.
  intros Hrun Hab Hc Hb Ht. split.
  - by apply browse_page_abort_tick.
  - clear. intros tk b. split.
    + intros [Hw|Hc]; unfold _browse_interval_func.
      * by rewrite Hw.
      * rewrite Hc. by destruct (_websock b).
    + intros Hw Hc. split.
      * destruct Hw as [ws Hws]. intros [bh Hbh] Hf. split.
        -- intros Ho. unfold _browse_interval_func. by rewrite Hws, Hc, Hbh, Hf, Ho.
        -- intros Ho Hi. unfold _browse_interval_func.
           by rewrite Hws, Hc, Hbh, Hf, Ho, Hi.
      * intros Hb. split_and!; intros.
        -- by apply tick_timeout.
        -- by apply tick_abort.
        -- by apply tick_idle.
Qed.

(** C3 (as amended).  For a visit in its loop: at a tick at which the
    socket is connected, no behavior is finished and more than 1200 s have
    passed since the start, [browse_page] returns, after the teardown, what
    the attribute [_outlinks] holds.  That is [None], not an empty set, when
    up to then no behavior was finished at a tick and every reply carried an
    integer id. *)
Theorem hard_timeout_returns (u : string) (req shot chg : bool) (started : Z)
    (sched : list step) (b b1 : t) (tr1 : list event) (tk : tick) (rest : list step) :
  browse_page b64decode u req shot chg started sched b = (Running, b1, tr1) →
  sock_connected tk = true →
  _behavior b1 = None ∨ behavior_finished tk = false →
  now tk - started > 1200 * 1000 →
  browse_page b64decode u req shot chg started (sched ++ Tick tk :: rest) b
  = (Done (_outlinks b1), set_behavior None b1, tr1 ++ [WebsockClose])
  ∧ (Forall (λ s, integer_id s = true ∧ behavior_unfinished s = true) sched →
     _outlinks b1 = None)
  ∧ HARD_TIMEOUT_SECONDS = 1200.
Proof.
  intros Hrun Hc Hb Ht.
  destruct (browse_page_running b64decode _ _ _ _ _ _ _ _ _ Hrun)
    as (ws & c1 & Hws & Hloop & Hs & Hw & Ha).
  split_and!; [|intros Hq|done].
  - rewrite (browse_page_tick b64decode _ _ _ _ _ _ _ _ _ tk rest Hrun).
    cbn [browse_loop]. rewrite tick_timeout by (rewrite ?Hs; done).
    rewrite Hc. by rewrite app_nil_r.
  - pose proof (browse_loop_no_outlinks b64decode sched
                  (begin_visit u req shot chg ws started b) Hq eq_refl eq_refl) as [Ho _].
    by rewrite Hloop in Ho.
Qed.

Lemma start_keeps_abort proxy_arg tmp new_pid spawned obs b :
  _abort_browse_page (start proxy_arg tmp new_pid spawned obs b).1.2
  = _abort_browse_page b.
Proof.
  unfold start. destruct tmp as [tmp|]; [|done].
  destruct (Chrome.start _ _ _ _) as [[o c] tr]. by destruct o.
Qed.

Lemma stop_keeps_abort clock obs wait_status b b' tr :
  stop clock obs wait_status b = Done (b', tr) →
  _abort_browse_page b' = _abort_browse_page b.
Proof.
  unfold stop. intros H.
  repeat (case_match; simplify_eq/=); done.
Qed.

Lemma browse_page_keeps_abort u req shot chg started sched b :
  _abort_browse_page b = true →
  _abort_browse_page (browse_page b64decode u req shot chg started sched b).1.2 = true.
Proof.
  intros Ha. unfold browse_page. destruct (_websocket_url b) as [ws|]; [|done].
  pose proof (browse_loop_same_visit b64decode sched
                (begin_visit u req shot chg ws started b)) as Hsv.
  destruct (browse_loop b64decode sched _) as [[[o b2] tr2] c2].
  destruct Hsv as (_ & _ & _ & _ & _ & _ & _ & Hflag). simpl in Hflag.
  destruct o; simpl; by apply Hflag.
Qed.

(** C8 (as amended).  No method of [Browser] clears the abort flag: a step
    of the reader thread or of the behavior, a tick, [browse_page] as a
    whole, [start] and [stop] all leave a set flag set.  Hence, on a browser
    on which [abort_browse_page] was called once, every later [browse_page]
    raises [BrowsingAborted] at its first tick when at that tick the socket
    is connected, the behavior is not finished and at most 1200 s have
    passed since the start of the visit. *)
Theorem abort_flag_is_sticky (u : string) (req shot chg : bool) (started : Z)
    (pre : list step) (tk : tick) (rest : list step) (b : t) :
  _abort_browse_page b = true →
  is_Some (_websocket_url b) →
  Forall (λ s, is_tick s = false) pre →
  sock_connected tk = true →
  behavior_finished tk = false →
  now tk - started ≤ 1200 * 1000 →
  (browse_page b64decode u req shot chg started (pre ++ Tick tk :: rest) b).1.1
  = Raise BrowsingAborted
  ∧ _abort_browse_page
      (browse_page b64decode u req shot chg started (pre ++ Tick tk :: rest) b).1.2
    = true
  ∧ (∀ b', _abort_browse_page (abort_browse_page b') = true)
  ∧ (∀ s b', _abort_browse_page b' = true →
             _abort_browse_page (beside b64decode s b').1 = true)
  ∧ (∀ tk' b', _abort_browse_page b' = true →
               _abort_browse_page (_browse_interval_func tk' b').1.2 = true)
  ∧ (∀ u' req' shot' chg' started' sched' b',
       _abort_browse_page b' = true →
       _abort_browse_page
         (browse_page b64decode u' req' shot' chg' started' sched' b').1.2 = true)
  ∧ (∀ proxy_arg tmp new_pid spawned obs b',
       _abort_browse_page b' = true →
       _abort_browse_page (start proxy_arg tmp new_pid spawned obs b').1.2 = true)
  ∧ (∀ clock obs wait_status b' b'' tr,
       _abort_browse_page b' = true →
       stop clock obs wait_status b' = Done (b'', tr) →
       _abort_browse_page b'' = true).
Proof.
  intros Ha [ws Hws] Hpre Hc Hf Ht.
  assert (∃ b1 tr1, browse_page b64decode u req shot chg started pre b
                    = (Running, b1, tr1)) as (b1 & tr1 & Hrun).
  { unfold browse_page. rewrite Hws.
    pose proof (browse_loop_no_tick b64decode pre
                  (begin_visit u req shot chg ws started b) Hpre) as Hr.
    destruct (browse_loop b64decode pre _) as [[[o b2] tr2] c2].
    simpl in Hr. subst o. by eexists _, _. }
  assert (browse_page b64decode u req shot chg started (pre ++ Tick tk :: rest) b
          = (Raise BrowsingAborted, set_behavior None b1, tr1 ++ [WebsockClose]))
    as Hraise by (apply browse_page_abort_tick; auto).
  split_and!.
  - by rewrite Hraise.
  - by apply browse_page_keeps_abort.
  - done.
  - intros s b' Hb'. by apply (beside_same_visit b64decode s b').
  - intros tk' b' Hb'. by apply (interval_same_visit tk' b').
  - intros. by apply browse_page_keeps_abort.
  - intros. by rewrite start_keeps_abort.
  - intros ?????? Hb' Hstop. by rewrite (stop_keeps_abort _ _ _ _ _ _ Hstop).
Qed.

End VisitClaims.

Section TraceFacts.
Import Browser.

Variable b64decode : string → option string.

Lemma beside_fields s b :
  fields_or_none (_outlinks b) → fields_or_none (_outlinks (beside b64decode s b).1).
Proof.
  intros Hf. destruct s as [|m w|method param| |tk]; unfold_step; simpl;
    try destruct m; repeat (case_match || case_decide); simplify_eq/=; try done.
  right. by eexists.
Qed.

Lemma interval_fields tk b :
  fields_or_none (_outlinks b) →
  fields_or_none (_outlinks (_browse_interval_func tk b).1.2).
Proof.
  intros Hf. unfold_step. repeat (case_match || case_decide); simplify_eq/=; done.
Qed.

Lemma browse_loop_fields sched : ∀ b,
  fields_or_none (_outlinks b) →
  fields_or_none (_outlinks (browse_loop b64decode sched b).1.1.2)
  ∧ ∀ O, (browse_loop b64decode sched b).1.1.1 = Done O → fields_or_none O.
Proof.
  induction sched as [|s sched IH]; intros b Hf; [done|].
  destruct s as [|m w|method param| |tk]; cbn [browse_loop].
  5: { pose proof (interval_fields tk b Hf) as Hf'.
       destruct (_browse_interval_func tk b) as [[r b'] tr'].
       destruct r as [[[|]|]| |]; simpl in *; try done.
       - split; [done|]. by intros O [= <-].
       - specialize (IH b' Hf').
         by destruct (browse_loop b64decode sched b') as [[[??]?]?].
       - specialize (IH b' Hf').
         by destruct (browse_loop b64decode sched b') as [[[??]?]?]. }
  all: match goal with |- context [beside b64decode ?s ?b0] =>
         pose proof (beside_fields s b0 Hf) as Hf';
         destruct (beside b64decode s b0) as [b' tr'] end;
    specialize (IH b' Hf');
    by destruct (browse_loop b64decode sched b') as [[[??]?]?].
Qed.









End TraceFacts.

Section TraceClaims.
Import Browser.

Variable b64decode : string → option string.

(** C4 (as amended).  A reply whose id is the one waited for (and not the
    screenshot's) has its string split at single spaces and the set of the
    fields stored as outlinks.  The outlinks that a visit returns are such
    a set: its elements are the fields of the string, which joined by
    single spaces give the string back; none is repeated, none contains a
    space, and the set is not empty.  The fields are the strings that were
    joined, all of them non-empty, when the string is the join of at least
    one non-empty string without spaces. *)
Theorem visit_outlinks_are_fields (u : string) (req shot chg : bool) (started : Z)
    (sched : list step) (b : t) (O : gset string) :
  (browse_page b64decode u req shot chg started sched b).1.1 = Done (Some O) →
  (∃ v, O = list_to_set (split space v)
        ∧ join space (split space v) = v
        ∧ ∀ x, x ∈ O ↔ x ∈ split space v)
  ∧ NoDup (elements O)
  ∧ (∀ x, x ∈ O → free_of space x)
  ∧ O ≠ ∅
  ∧ (∀ b' id r v w,
       id ≠ _waiting_on_screenshot_msg_id b' →
       id = _waiting_on_outlinks_msg_id b' →
       value r = Some (JString v) →
       _handle_message b64decode (Reply id r) w b'
       = (set_outlinks (Some (list_to_set (split space v))) b', []))
  ∧ (∀ l, l ≠ [] → Forall (λ x, x ≠ EmptyString ∧ free_of space x) l →
       split space (join space l) = l
       ∧ ∀ x, x ∈ (list_to_set (split space (join space l)) : gset string) →
              x ≠ EmptyString).
Proof.
  intros Hret.
  assert (fields_or_none (Some O)) as [?|[v Hv]]; [|done|].
  { revert Hret. unfold browse_page. destruct (_websocket_url b) as [ws|]; [|done].
    pose proof (browse_loop_fields b64decode sched
                  (begin_visit u req shot chg ws started b)) as [_ Hf]; [by left|].
    destruct (browse_loop b64decode sched _) as [[[o b2] tr2] c2].
    destruct o; simpl; try done. intros [= ->]. by apply Hf. }
  injection Hv as ->.
  split_and!.
  - exists v. split_and!; [done| |].
    + unfold split. rewrite join_split_acc. done.
    + intros x. by rewrite elem_of_list_to_set.
  - apply NoDup_elements.
  - intros x Hx%elem_of_list_to_set.
    pose proof (split_acc_free space v EmptyString I) as Hfree.
    rewrite Forall_forall in Hfree. by apply Hfree.
  - intros Hempty. pose proof (split_acc_nonempty space v EmptyString) as Hne.
    destruct (split space v) as [|x l] eqn:E; [done|].
    assert (x ∈ (list_to_set (x :: l) : gset string)) as Hx by set_solver.
    rewrite Hempty in Hx. by apply not_elem_of_empty in Hx.
  - intros b' id r v' w Hns Hid Hv. unfold _handle_message.
    rewrite decide_False by done. rewrite decide_True by done. by rewrite Hv.
  - intros l Hne Hl.
    assert (split space (join space l) = l) as Hsj.
    { apply split_join; [done|]. eapply Forall_impl; [exact Hl|]. by intros ? [_ ?]. }
    split; [done|]. rewrite Hsj. intros x Hx%elem_of_list_to_set.
    rewrite Forall_forall in Hl. by apply Hl.
Qed.


End TraceClaims.

Section VisitExamples.
Import Browser.

Example b64decode_PNG : b64decode_rfc4648 "UE5H" = Some "PNG".
Proof. reflexivity. Qed.

(** The visit of the first scenario of the specification: the outlinks
    are the two distinct links, the callback gets the decoded bytes, and the
    URL has not changed. *)
Example happy_visit :
  let r := browse_page b64decode_rfc4648 "http://example/" true true true 0
             (happy_path "http://a http://b http://a" ++ [last_tick])
             started_browser in
  r.1.1 = Done (Some {[ "http://a"; "http://b" ]})
  ∧ filter (λ e, is_screenshot e = true) r.2 = [OnScreenshot "PNG"]
  ∧ filter (λ e, match e with OnUrlChange _ => true | _ => false end = true) r.2 = []
  ∧ last r.2 = Some WebsockClose
  ∧ _behavior r.1.2 = None.
Proof. vm_compute. done. Qed.

(** C2, counterexample.  [abort_browse_page] is called during the visit,
    after the outlinks have arrived and before the next tick; at that tick
    the socket is connected and [browse_page] returns the outlinks. *)
Lemma abort_after_outlinks_returns :
  let sched := happy_path "http://a http://b http://a" ++ [AbortCall; last_tick] in
  let r := browse_page b64decode_rfc4648 "http://example/" true true true 0
             sched started_browser in
  AbortCall ∈ sched
  ∧ _abort_browse_page r.1.2 = true
  ∧ r.1.1 = Done (Some {[ "http://a"; "http://b" ]})
  ∧ r.1.1 ≠ Raise BrowsingAborted.
Proof.
  intros sched r. split_and!; [|vm_compute; reflexivity..|vm_compute; discriminate].
  unfold sched. apply elem_of_app. right. apply elem_of_cons. by left.
Qed.

(** C2, witness: the abort comes right after the websocket opened. *)
Lemma abort_raises_at_next_tick_witness :
  let tk := {| now := 500; sock_connected := true; behavior_finished := false |} in
  ∃ b1 tr1,
    browse_page b64decode_rfc4648 "http://example/" true true true 0
      [WsOpen; AbortCall] started_browser = (Running, b1, tr1)
    ∧ (browse_page b64decode_rfc4648 "http://example/" true true true 0
         ([WsOpen; AbortCall] ++ [Tick tk]) started_browser).1.1
      = Raise BrowsingAborted.
Proof.
  intros tk.
  pose (r := browse_page b64decode_rfc4648 "http://example/" true true true 0
               [WsOpen; AbortCall] started_browser).
  assert (browse_page b64decode_rfc4648 "http://example/" true true true 0
            [WsOpen; AbortCall] started_browser = (Running, r.1.2, r.2)) as Hrun.
  { vm_compute. reflexivity. }
  exists r.1.2, r.2. split; [exact Hrun|].
  assert (AbortCall ∈ [WsOpen; AbortCall]) as Hin.
  { rewrite !elem_of_cons. tauto. }
  assert (now tk - 0 ≤ HARD_TIMEOUT_SECONDS * 1000) as Ht.
  { vm_compute. discriminate. }
  destruct (abort_raises_at_next_tick b64decode_rfc4648 "http://example/" true true true
              0 [WsOpen; AbortCall] started_browser r.1.2 r.2 tk [] Hrun
              (or_intror Hin) eq_refl (or_intror eq_refl) Ht) as [-> _].
  reflexivity.
Defined.

(** C3, counterexample.  No behavior exists and nothing was captured; the
    clock is read 1200.001 s after the start.  [browse_page] returns [None],
    which is not the empty set. *)
Lemma hard_timeout_returns_none :
  let tk := {| now := 1200001; sock_connected := true; behavior_finished := false |} in
  let r := browse_page b64decode_rfc4648 "http://example/" true true true 0
             [WsOpen; Tick tk] started_browser in
  r.1.1 = Done None ∧ r.1.1 ≠ Done (Some ∅).
Proof. split; [vm_compute; reflexivity | vm_compute; discriminate]. Qed.

(** C3, witness: the page loads, the behavior never finishes. *)
Lemma hard_timeout_returns_witness :
  let sched :=
    [WsOpen; WsMessage Page_loadEventFired false;
     WsMessage (Reply (Some 8) {| data := Some (JString "UE5H"); value := None |}) false;
     Tick {| now := 500; sock_connected := true; behavior_finished := false |}] in
  let tk := {| now := 1200500; sock_connected := true; behavior_finished := false |} in
  ∃ b1 tr1,
    browse_page b64decode_rfc4648 "http://example/" true true true 0
      sched started_browser = (Running, b1, tr1)
    ∧ is_Some (_behavior b1)
    ∧ browse_page b64decode_rfc4648 "http://example/" true true true 0
        (sched ++ [Tick tk]) started_browser
      = (Done None, set_behavior None b1, tr1 ++ [WebsockClose]).
Proof.
  intros sched tk.
  pose (r := browse_page b64decode_rfc4648 "http://example/" true true true 0
               sched started_browser).
  assert (browse_page b64decode_rfc4648 "http://example/" true true true 0
            sched started_browser = (Running, r.1.2, r.2)) as Hrun.
  { vm_compute. reflexivity. }
  exists r.1.2, r.2. split; [exact Hrun|]. split; [vm_compute; eauto|].
  assert (now tk - 0 > 1200 * 1000) as Ht by (vm_compute; reflexivity).
  destruct (hard_timeout_returns b64decode_rfc4648 "http://example/" true true true
              0 sched started_browser r.1.2 r.2 tk [] Hrun
              eq_refl (or_intror eq_refl) Ht) as (-> & Hnone & _).
  rewrite Hnone; [reflexivity|]. repeat constructor.
Defined.

(** C4, counterexample.  The page has no link: the expression joins an
    empty array, the reply carries the empty string, and the outlinks
    returned are the set whose one element is the empty string. *)
Lemma no_links_gives_empty_string :
  let r := browse_page b64decode_rfc4648 "http://example/" true true true 0
             (happy_path "" ++ [last_tick]) started_browser in
  r.1.1 = Done (Some {[ EmptyString ]})
  ∧ ∃ O, r.1.1 = Done (Some O) ∧ EmptyString ∈ O.
Proof.
  split; [vm_compute; reflexivity|].
  exists {[ EmptyString ]}. split; [vm_compute; reflexivity|]. by apply elem_of_singleton.
Qed.

(** C4, witness: the visit of the first scenario. *)
Lemma visit_outlinks_are_fields_witness :
  let r := browse_page b64decode_rfc4648 "http://example/" true true true 0
             (happy_path "http://a http://b http://a" ++ [last_tick])
             started_browser in
  r.1.1 = Done (Some {[ "http://a"; "http://b" ]})
  ∧ ∀ x, x ∈ ({[ "http://a"; "http://b" ]} : gset string) → free_of space x.
Proof.
  intros r.
  assert (r.1.1 = Done (Some {[ "http://a"; "http://b" ]})) as H.
  { vm_compute. reflexivity. }
  split; [exact H|].
  destruct (visit_outlinks_are_fields b64decode_rfc4648 "http://example/" true true true
              0 (happy_path "http://a http://b http://a" ++ [last_tick])
              started_browser _ H) as (_ & _ & Hfree & _).
  exact Hfree.
Defined.



(** C8, counterexample.  [abort_browse_page] was called before the visit;
    the websocket is connected and no behavior is finished, but the first
    tick comes 1200.001 s after the start: the visit ends by the hard
    timeout and [browse_page] returns normally. *)
Lemma aborted_browser_returns_at_timeout :
  let b := abort_browse_page started_browser in
  let tk := {| now := 1200001; sock_connected := true; behavior_finished := false |} in
  let r := browse_page b64decode_rfc4648 "http://example/" true true true 0
             [WsOpen; Tick tk] b in
  _abort_browse_page b = true
  ∧ r.1.1 = Done None
  ∧ r.1.1 ≠ Raise BrowsingAborted.
Proof. split_and!; [vm_compute; reflexivity..|vm_compute; discriminate]. Qed.

(** C8, witness: a second visit on a browser whose first visit was
    aborted. *)
Lemma abort_flag_is_sticky_witness :
  let tk := {| now := 500; sock_connected := true; behavior_finished := false |} in
  let first := browse_page b64decode_rfc4648 "http://example/" true true true 0
                 [WsOpen; AbortCall; Tick tk] started_browser in
  let b := first.1.2 in
  _abort_browse_page b = true
  ∧ is_Some (_websocket_url b)
  ∧ (browse_page b64decode_rfc4648 "http://example/2" true true true 9000
       ([WsOpen] ++ [Tick {| now := 9500; sock_connected := true;
                              behavior_finished := false |}]) b).1.1
    = Raise BrowsingAborted.
Proof.
  intros tk first b.
  assert (_abort_browse_page b = true) as Ha by (vm_compute; reflexivity).
  assert (is_Some (_websocket_url b)) as Hw by (vm_compute; eauto).
  split; [exact Ha|]. split; [exact Hw|].
  assert (Forall (λ s, is_tick s = false) [WsOpen]) as Hp by repeat constructor.
  assert (9500 - 9000 ≤ 1200 * 1000) as Ht by (vm_compute; discriminate).
  destruct (abort_flag_is_sticky b64decode_rfc4648 "http://example/2" true true true
              9000 [WsOpen]
              {| now := 9500; sock_connected := true; behavior_finished := false |}
              [] b Ha Hw Hp eq_refl eq_refl Ht) as [H _].
  exact H.
Defined.

End VisitExamples.


(** * Further properties *)

(** ** BrowserPool: construction, hand-out, shutdown *)

Section PoolMore.
Import BrowserPool.

(** The construction loop, with the browsers in the order of their
    making. *)
Lemma create_ports kw n : ∀ i available heap,
  available ⊆ dom heap →
  ∃ l : list ref,
    length l = n ∧ NoDup l
    ∧ (create kw i n available heap).1 = list_to_set l ∪ available
    ∧ (∀ r, r ∈ l → r ∉ dom heap)
    ∧ (∀ (k : nat) r, l !! k = Some r →
         (create kw i n available heap).2 !! r
         = Some (Browser.__init__ (BASE_PORT + (i + Z.of_nat k)) (chrome_exe kw)
                   (proxy kw) (ignore_cert_errors kw))).
Proof.
  induction n as [|n IH]; intros i available heap Hsub.
  - exists []. simpl. split_and!; [done|constructor|set_solver|set_solver|done].
  - cbn [create].
    set (r0 := fresh (dom heap)).
    set (b0 := Browser.__init__ (BASE_PORT + i) (chrome_exe kw) (proxy kw)
                 (ignore_cert_errors kw)).
    assert (r0 ∉ dom heap) as Hfresh by apply is_fresh.
    assert ({[r0]} ∪ available ⊆ dom (<[r0:=b0]> heap)) as Hsub'.
    { rewrite dom_insert_L. set_solver. }
    destruct (IH (i + 1) ({[r0]} ∪ available) (<[r0:=b0]> heap) Hsub')
      as (l & Hlen & Hnd & Hav & Hnew & Hport).
    destruct (create kw (i + 1) n ({[r0]} ∪ available) (<[r0:=b0]> heap))
      as [available' heap'] eqn:E.
    pose proof (create_spec kw n _ _ _ _ _ Hsub' E) as (_ & _ & _ & _ & Hkeep).
    simpl in *.
    assert (r0 ∉ l) as Hr0.
    { intros Hin. apply (Hnew _ Hin). rewrite dom_insert_L. set_solver. }
    exists (r0 :: l). split_and!.
    + simpl. by rewrite Hlen.
    + by constructor.
    + rewrite Hav. set_solver.
    + intros r [->|Hin]%elem_of_cons; [done|].
      intros Hd. apply (Hnew _ Hin). rewrite dom_insert_L. set_solver.
    + intros [|k] r Hk; simpl in Hk.
      * injection Hk as <-. rewrite Hkeep by (rewrite dom_insert_L; set_solver).
        rewrite lookup_insert_eq. unfold b0. do 3 f_equal. lia.
      * rewrite (Hport k r Hk). do 3 f_equal. lia.
Qed.

(** X1.  [BrowserPool(size)] makes [size] browsers, all different
    objects, none of which existed before: the k-th is a new [Browser] on
    port 9200 + k, not aborted and with its command counter at 1.  They are
    the available set, the in-use set is empty, and the objects that existed
    before are untouched. *)
Theorem pool_init_ports (n : nat) (kw : kwargs) (heap : gmap ref Browser.t) :
  ∃ l : list ref,
    length l = n ∧ NoDup l
    ∧ _available (__init__ n kw heap).1 = list_to_set l
    ∧ _in_use (__init__ n kw heap).1 = ∅
    ∧ (∀ (k : nat) r, l !! k = Some r →
         heap !! r = None
         ∧ ∃ b, (__init__ n kw heap).2 !! r = Some b
                ∧ Browser.chrome_port b = 9200 + Z.of_nat k
                ∧ Browser._abort_browse_page b = false
                ∧ Browser.command_id b = 1
                ∧ Browser.chrome_exe b = chrome_exe kw
                ∧ Browser.proxy b = proxy kw
                ∧ Browser.ignore_cert_errors b = ignore_cert_errors kw)
    ∧ (∀ r, is_Some (heap !! r) → (__init__ n kw heap).2 !! r = heap !! r).
Proof.
  destruct (create_ports kw n 0 ∅ heap) as (l & Hlen & Hnd & Hav & Hnew & Hport);
    [set_solver|].
  unfold __init__.
  destruct (create kw 0 n ∅ heap) as [available' heap'] eqn:E. simpl in *.
  pose proof (create_spec kw n _ _ _ _ _ (empty_subseteq _) E) as (_ & _ & _ & _ & Hkeep).
  exists l. split_and!; [done|done|set_solver|done| |].
  - intros k r Hk. split.
    + apply not_elem_of_dom. apply Hnew. by eapply list_elem_of_lookup_2.
    + eexists. split; [by apply Hport|]. by simpl.
  - intros r Hr. apply Hkeep. by apply elem_of_dom.
Qed.

(** X2.  [release] of the browser that [acquire] just returned puts the
    pool back exactly as it was. *)
Theorem acquire_release_roundtrip (choice : nat) (p p' : t) (b : ref)
    (tr : list event) :
  _available p ## _in_use p →
  acquire choice p = (Done b, p', tr) →
  release b p'
  = (Done (), p, [LockAcquire; AvailableAdd b; InUseRemove b; LockRelease]).
Proof.
  intros Hd. unfold acquire.
  destruct (pop choice (_available p)) as [[x rest]|] eqn:E; [|done].
  intros [= <- <- <-]. apply pop_Some in E as [Hx ->].
  unfold release. simpl. rewrite decide_True by set_solver.
  destruct p as [a u]. simpl in *. do 2 f_equal. f_equal.
  - apply set_eq. intros y. rewrite elem_of_union, elem_of_difference, elem_of_singleton.
    destruct (decide (y = x)) as [->|]; naive_solver.
  - set_solver.
Qed.

Lemma acquire_each_spec choices : ∀ p,
  _available p ## _in_use p →
  length choices = size (_available p) →
  ∃ l : list ref,
    (acquire_each choices p).1 = Done <$> l
    ∧ NoDup l
    ∧ list_to_set l = _available p
    ∧ _available (acquire_each choices p).2 = ∅
    ∧ _in_use (acquire_each choices p).2 = _available p ∪ _in_use p.
Proof.
  induction choices as [|choice choices IH]; intros p Hd Hlen.
  - simpl in *. symmetry in Hlen. apply size_empty_inv, leibniz_equiv in Hlen.
    exists []. rewrite Hlen. split_and!; [done|constructor|set_solver|done|set_solver].
  - cbn [acquire_each]. unfold acquire.
    destruct (pop choice (_available p)) as [[x rest]|] eqn:E.
    + apply pop_Some in E as [Hx ->].
      set (p1 := {| _available := _available p ∖ {[x]}; _in_use := {[x]} ∪ _in_use p |}).
      assert (size (_available p ∖ {[x]}) = length choices) as Hsz.
      { rewrite size_difference by set_solver. rewrite size_singleton.
        simpl in Hlen. lia. }
      destruct (IH p1) as (l & Hl & Hnd & Hset & Hav & Hin);
        [simpl; set_solver|by simpl|].
      destruct (acquire_each choices p1) as [os p2]. simpl in *.
      exists (x :: l). split_and!.
      * by rewrite Hl.
      * constructor; [|done]. intros Hxl.
        assert (x ∈ (list_to_set l : gset ref)) as Hx' by by apply elem_of_list_to_set.
        rewrite Hset in Hx'. set_solver.
      * simpl. rewrite Hset. apply set_eq. intros y.
        rewrite elem_of_union, elem_of_difference, elem_of_singleton.
        destruct (decide (y = x)) as [->|]; naive_solver.
      * done.
      * rewrite Hin. apply set_eq. intros y.
        rewrite !elem_of_union, elem_of_difference, elem_of_singleton.
        destruct (decide (y = x)) as [->|]; naive_solver.
    + apply pop_None in E. rewrite E, size_empty in Hlen. done.
Qed.

(** X3.  On a new pool of size [n], [n] calls of [acquire] in a row all
    succeed and hand out [n] different browsers, every browser of the pool
    once; the pool is then empty, all browsers are in use, and one more
    [acquire] raises [KeyError] and changes nothing. *)
Theorem pool_exhaustion (n : nat) (kw : kwargs) (heap : gmap ref Browser.t)
    (choices : list nat) (last : nat) :
  length choices = n →
  let p0 := (__init__ n kw heap).1 in
  let p := (acquire_each choices p0).2 in
  ∃ l : list ref,
    (acquire_each choices p0).1 = Done <$> l
    ∧ NoDup l
    ∧ list_to_set l = _available p0
    ∧ _available p = ∅
    ∧ _in_use p = _available p0
    ∧ acquire last p = (Raise KeyError, p, [LockAcquire; LockRelease]).
Proof.
  intros Hlen p0 p.
  destruct (init_size n kw heap) as [Hsize Hin]. fold p0 in Hsize, Hin.
  destruct (acquire_each_spec choices p0) as (l & Hl & Hnd & Hset & Hav & Hiu).
  { rewrite Hin. set_solver. }
  { by rewrite Hsize. }
  exists l. fold p in Hav, Hiu. split_and!; [done|done|done|done| |].
  - rewrite Hiu, Hin. set_solver.
  - unfold acquire, pop. rewrite Hav, elements_empty. done.
Qed.

End PoolMore.

Section PoolHeap.
Import BrowserPool.

Variable b64decode : string → option string.

Lemma abort_twice b :
  Browser.abort_browse_page (Browser.abort_browse_page b) = Browser.abort_browse_page b.
Proof. done. Qed.

Lemma shutdown_lookup p heap r :
  (shutdown_now p heap).1.2 !! r
  = if decide (r ∈ _in_use p) then Browser.abort_browse_page <$> heap !! r
    else heap !! r.
Proof.
  unfold shutdown_now. simpl. rewrite foldl_alter_lookup by apply NoDup_elements.
  destruct (decide (r ∈ elements (_in_use p))) as [H|H]; rewrite elem_of_elements in H.
  - by rewrite decide_True.
  - by rewrite decide_False.
Qed.

Lemma run_heap calls : ∀ p heap r,
  (run calls (p, heap)).2 !! r = heap !! r
  ∨ (run calls (p, heap)).2 !! r = Browser.abort_browse_page <$> heap !! r.
Proof.
  induction calls as [|c calls IH]; intros p heap r; [by left|].
  rewrite run_cons. destruct c as [choice|b|]; cbn [do_call].
  - destruct (acquire choice p) as [[o p'] tr]. apply IH.
  - destruct (release b p) as [[o p'] tr]. apply IH.
  - destruct (shutdown_now p heap) as [[p' heap'] tr] eqn:E. cbn [fst].
    assert (heap' !! r = (shutdown_now p heap).1.2 !! r) as Hh by by rewrite E.
    rewrite shutdown_lookup in Hh.
    destruct (IH p' heap' r) as [->| ->]; rewrite Hh; case_decide; auto.
    right. destruct (heap !! r); simpl; [|done]. by rewrite abort_twice.
Qed.

(** X4.  Whatever is called on the pool, a browser in the heap is left as
    it was or has its abort flag set and nothing else changed; no browser
    is added or removed; a flag that is set stays set; and without a call
    of [shutdown_now] the heap is not touched at all. *)
Theorem pool_calls_keep_browsers (calls : list call) (p : t)
    (heap : gmap ref Browser.t) :
  (∀ r, (run calls (p, heap)).2 !! r = heap !! r
        ∨ (run calls (p, heap)).2 !! r
          = Browser.set_abort_browse_page true <$> heap !! r)
  ∧ dom (run calls (p, heap)).2 = dom heap
  ∧ (∀ r b, heap !! r = Some b → Browser._abort_browse_page b = true →
            (run calls (p, heap)).2 !! r = Some b)
  ∧ (ShutdownNow ∉ calls → (run calls (p, heap)).2 = heap).
Proof.
  split_and!.
  - intros r. apply run_heap.
  - apply set_eq. intros r. rewrite !elem_of_dom.
    destruct (run_heap calls p heap r) as [->| ->]; [done|].
    by rewrite fmap_is_Some.
  - intros r b Hb Ha. destruct (run_heap calls p heap r) as [->| ->]; [done|].
    rewrite Hb. simpl. f_equal. destruct b. simpl in *. by subst.
  - revert p heap. induction calls as [|c calls IH]; intros p heap Hno; [done|].
    rewrite run_cons. destruct c as [choice|b|]; cbn [do_call].
    + destruct (acquire choice p) as [[o p'] tr]. apply IH. set_solver.
    + destruct (release b p) as [[o p'] tr]. apply IH. set_solver.
    + exfalso. apply Hno. left.
Qed.

(** X5.  [shutdown_now] reaches the visits in progress: to a browser in
    use that is in the loop of [browse_page] it does what a call of
    [abort_browse_page] from another thread does, and that visit raises
    [BrowsingAborted] at its next tick if then the socket is connected, no
    behavior is finished and at most 1200 s have passed. *)
Theorem shutdown_aborts_visit (p : t) (heap : gmap ref Browser.t) (r : ref)
    (u : string) (req shot chg : bool) (started : Z)
    (sched : list Browser.step) (b0 b1 : Browser.t) (tr1 : list Browser.event)
    (tk : Browser.tick) (rest : list Browser.step) :
  r ∈ _in_use p →
  heap !! r = Some b1 →
  Browser.browse_page b64decode u req shot chg started sched b0 = (Running, b1, tr1) →
  Browser.sock_connected tk = true →
  Browser._behavior b1 = None ∨ Browser.behavior_finished tk = false →
  Browser.now tk - started ≤ 1200 * 1000 →
  (shutdown_now p heap).1.2 !! r = Some (Browser.beside b64decode Browser.AbortCall b1).1
  ∧ Browser.browse_page b64decode u req shot chg started
      (sched ++ Browser.AbortCall :: Browser.Tick tk :: rest) b0
    = (Raise BrowsingAborted,
       Browser.set_behavior None (Browser.abort_browse_page b1),
       tr1 ++ [Browser.WebsockClose]).
Proof.
  intros Hr Hb Hrun Hc Hbeh Ht. split.
  - rewrite shutdown_lookup, decide_True by done. by rewrite Hb.
  - destruct (browse_page_running b64decode _ _ _ _ _ _ _ _ _ Hrun)
      as (ws & c1 & Hws & Hloop & Hs & Hw & Ha).
    assert (Browser.browse_page b64decode u req shot chg started
              (sched ++ [Browser.AbortCall]) b0
            = (Running, Browser.abort_browse_page b1, tr1)) as Hrun'.
    { unfold Browser.browse_page. rewrite Hws.
      rewrite (browse_loop_app b64decode _ _ _ _ _ [Browser.AbortCall] Hloop).
      simpl. by rewrite app_nil_r. }
    replace (sched ++ Browser.AbortCall :: Browser.Tick tk :: rest)
      with ((sched ++ [Browser.AbortCall]) ++ Browser.Tick tk :: rest)
      by by rewrite <- app_assoc.
    apply (browse_page_abort_tick b64decode _ _ _ _ _ _ _ _ _ tk rest Hrun');
      [|done|done|done].
    right. apply elem_of_app. right. by left.
Qed.

End PoolHeap.

(** ** Browser: commands, callbacks, the ends of a visit *)

Section VisitMore.
Import Browser.

Variable b64decode : string → option string.

(** A relation between the state before, the trace and the state after
    that holds of every step allowed by [Q], of no step at all, and of two
    runs one after the other, holds of the loop of a visit. *)
Lemma browse_loop_rel (Q : step → Prop) (R : t → list event → t → Prop) :
  (∀ b, R b [] b) →
  (∀ b t1 b1 t2 b2, R b t1 b1 → R b1 t2 b2 → R b (t1 ++ t2) b2) →
  (∀ s b, Q s → R b (beside b64decode s b).2 (beside b64decode s b).1) →
  (∀ tk b, Q (Tick tk) →
           R b (_browse_interval_func tk b).2 (_browse_interval_func tk b).1.2) →
  ∀ sched b, Forall Q sched →
    R b (browse_loop b64decode sched b).1.2 (browse_loop b64decode sched b).1.1.2.
Proof.
  intros Hnil Happ Hbeside Htick.
  induction sched as [|s sched IH]; intros b HQ; [apply Hnil|].
  apply Forall_cons in HQ as [Hs HQ].
  destruct s as [|m w|method param| |tk]; cbn [browse_loop].
  5: { specialize (Htick tk b Hs).
       destruct (_browse_interval_func tk b) as [[r b'] tr'].
       destruct r as [[[|]|]| |]; simpl in *; try done.
       all: specialize (IH b' HQ);
         destruct (browse_loop b64decode sched b') as [[[o b2] tr2] c2];
         simpl in *; by eapply Happ. }
  all: match goal with |- context [beside b64decode ?s ?b0] =>
         specialize (Hbeside s b0 Hs);
         destruct (beside b64decode s b0) as [b' tr'] end;
    specialize (IH b' HQ);
    destruct (browse_loop b64decode sched b') as [[[o b2] tr2] c2];
    simpl in *; by eapply Happ.
Qed.

(** The same for [browse_page], whose loop starts from the state that
    [begin_visit] makes and whose teardown adds at most [WebsockClose] and
    clears the behavior. *)
Lemma browse_page_rel (Q : step → Prop) (R : t → list event → t → Prop)
    u req shot chg started sched b ws :
  (∀ b, R b [] b) →
  (∀ b t1 b1 t2 b2, R b t1 b1 → R b1 t2 b2 → R b (t1 ++ t2) b2) →
  (∀ s b, Q s → R b (beside b64decode s b).2 (beside b64decode s b).1) →
  (∀ tk b, Q (Tick tk) →
           R b (_browse_interval_func tk b).2 (_browse_interval_func tk b).1.2) →
  (∀ b c, R b (teardown c b).2 (teardown c b).1) →
  _websocket_url b = Some ws →
  Forall Q sched →
  R (begin_visit u req shot chg ws started b)
    (browse_page b64decode u req shot chg started sched b).2
    (browse_page b64decode u req shot chg started sched b).1.2.
Proof.
  intros Hnil Happ Hbeside Htick Htear Hws HQ. unfold browse_page. rewrite Hws.
  pose proof (browse_loop_rel Q R Hnil Happ Hbeside Htick sched
                (begin_visit u req shot chg ws started b) HQ) as Hl.
  destruct (browse_loop b64decode sched _) as [[[o b2] tr2] c2]. simpl in Hl.
  destruct o; simpl; try done; eapply Happ; try done; apply (Htear b2 c2).
Qed.

Lemma sent_ids_app tr1 tr2 : sent_ids (tr1 ++ tr2) = sent_ids tr1 ++ sent_ids tr2.
Proof. unfold sent_ids. apply omap_app. Qed.

Lemma consecutive_from_app l1 : ∀ m l2,
  consecutive_from m l1 → consecutive_from (m + Z.of_nat (length l1)) l2 →
  consecutive_from m (l1 ++ l2).
Proof.
  induction l1 as [|x l1 IH]; intros m l2 H1 H2; simpl in *.
  - by rewrite Z.add_0_r in H2.
  - destruct H1 as [Hx H1]. split; [done|]. apply IH; [done|].
    replace (m + 1 + Z.of_nat (length l1)) with (m + Z.pos (Pos.of_succ_nat (length l1)))
      by lia. done.
Qed.

Lemma consecutive_from_lookup l : ∀ m (i : nat) id,
  consecutive_from m l → l !! i = Some id → id = m + Z.of_nat i.
Proof.
  induction l as [|x l IH]; intros m i id H Hi; [done|].
  destruct H as [Hx H]. destruct i as [|i]; simpl in Hi.
  - injection Hi as <-. lia.
  - rewrite (IH _ _ _ H Hi). lia.
Qed.

Lemma counts_app b t1 b1 t2 b2 :
  counts b t1 b1 → counts b1 t2 b2 → counts b (t1 ++ t2) b2.
Proof.
  intros [H1 E1] [H2 E2]. split.
  - rewrite sent_ids_app. apply consecutive_from_app; [done|]. by rewrite <- E1.
  - rewrite sent_ids_app, length_app, E2, E1. lia.
Qed.

Lemma counts_beside s b : counts b (beside b64decode s b).2 (beside b64decode s b).1.
Proof.
  unfold counts. destruct s as [|m w|method param| |tk]; unfold_step; simpl;
    try destruct m; repeat (case_match || case_decide); simplify_eq/=;
    split_and?; try done; lia.
Qed.

Lemma counts_tick tk b :
  counts b (_browse_interval_func tk b).2 (_browse_interval_func tk b).1.2.
Proof.
  unfold counts. unfold_step. repeat (case_match || case_decide); simplify_eq/=;
    split_and?; try done; lia.
Qed.

Lemma browse_page_counts u req shot chg started sched b :
  counts b (browse_page b64decode u req shot chg started sched b).2
    (browse_page b64decode u req shot chg started sched b).1.2.
Proof.
  destruct (_websocket_url b) as [ws|] eqn:Hws.
  - apply (browse_page_rel (λ _, True) counts u req shot chg started sched b ws).
    + intros b'. unfold counts. simpl. split; [done|lia].
    + intros. by eapply counts_app.
    + intros. apply counts_beside.
    + intros. apply counts_tick.
    + intros b' c. unfold counts. destruct c; simpl; split; try done; lia.
    + done.
    + by apply Forall_true.
  - unfold browse_page. rewrite Hws. unfold counts. simpl. split; [done|lia].
Qed.

Lemma consecutive_from_ge l : ∀ m x, consecutive_from m l → x ∈ l → m ≤ x.
Proof.
  induction l as [|y l IH]; intros m x H Hx; [by apply elem_of_nil in Hx|].
  destruct H as [Hy H]. apply elem_of_cons in Hx as [->|Hx]; [lia|].
  specialize (IH _ _ H Hx). lia.
Qed.

Lemma consecutive_from_NoDup l : ∀ m, consecutive_from m l → NoDup l.
Proof.
  induction l as [|y l IH]; intros m H; [constructor|].
  destruct H as [Hy H]. constructor; [|by eapply IH].
  intros Hin. pose proof (consecutive_from_ge _ _ _ H Hin). lia.
Qed.

(** X6.  In a visit the commands go out with the ids that the counter
    gives: the i-th command sent carries the id [command_id + i], so the ids
    are strictly increasing and none is used twice; at the end the counter
    stands behind the last id, ready for the next visit. *)
Theorem command_ids_consecutive (u : string) (req shot chg : bool) (started : Z)
    (sched : list step) (b : t) :
  (∀ (i : nat) id,
     sent_ids (browse_page b64decode u req shot chg started sched b).2 !! i = Some id →
     id = command_id b + Z.of_nat i)
  ∧ command_id (browse_page b64decode u req shot chg started sched b).1.2
    = command_id b
      + Z.of_nat (length (sent_ids (browse_page b64decode u req shot chg started sched b).2)).
Proof.
  destruct (browse_page_counts u req shot chg started sched b) as [H1 H2].
  split; [|done]. intros i id Hi. by eapply consecutive_from_lookup.
Qed.

(** X23.  The counter is never reset: the ids of a second visit of the
    same browser go on where those of the first ended, whatever the two
    visits were and however they ended, so over both visits no id is used
    twice. *)
Theorem ids_run_on_across_visits (u1 u2 : string) (req1 shot1 chg1 req2 shot2 chg2 : bool)
    (started1 started2 : Z) (sched1 sched2 : list step) (b : t) :
  let v1 := browse_page b64decode u1 req1 shot1 chg1 started1 sched1 b in
  let v2 := browse_page b64decode u2 req2 shot2 chg2 started2 sched2 v1.1.2 in
  consecutive_from (command_id b) (sent_ids (v1.2 ++ v2.2))
  ∧ NoDup (sent_ids (v1.2 ++ v2.2))
  ∧ command_id v2.1.2 = command_id b + Z.of_nat (length (sent_ids (v1.2 ++ v2.2))).
Proof.
  intros v1 v2.
  assert (counts b (v1.2 ++ v2.2) v2.1.2) as [H1 H2].
  { eapply counts_app; apply browse_page_counts. }
  split_and!; [done| |done]. by eapply consecutive_from_NoDup.
Qed.

(** X24.  A visit of a started browser takes nothing over from the visit
    before it except the counter, the abort flag and the behavior: two
    browsers that agree on what [start()] and the constructor set, and on
    those three, give the same visit, whatever URL, callbacks, pending ids,
    outlinks, websocket and start time the last visit left in them. *)
Theorem visit_forgets_previous_visit (u : string) (req shot chg : bool) (started : Z)
    (sched : list step) (b b' : t) :
  is_Some (_websocket_url b) →
  same_between_visits b b' →
  browse_page b64decode u req shot chg started sched b'
  = browse_page b64decode u req shot chg started sched b.
Proof.
  intros Hws H. unfold same_between_visits in H. destruct_and!.
  destruct b, b'. simplify_eq/=. unfold browse_page. simpl.
  by destruct _websocket_url0 as [ws|]; [|destruct Hws].
Qed.

(** X7.  [on_request] is called only in visits that were given the
    callback and only for requests whose URL does not start with "data:" in
    any mix of cases.  The behavior, if there is one, is told of every
    request, "data:" or not, and a request whose URL is not a "data:" URL
    does reach the callback. *)
Theorem on_request_filter (u : string) (req shot chg : bool) (started : Z)
    (sched : list step) (b : t) :
  (∀ u', OnRequest u' ∈ (browse_page b64decode u req shot chg started sched b).2 →
         req = true ∧ String.prefix "data:" (lower u') = false)
  ∧ (∀ b' u' w, is_Some (_behavior b') →
       BehaviorActivity ∈ (_handle_message b64decode (Network_requestWillBeSent u') w b').2)
  ∧ (∀ b' u' w, on_request b' = true → String.prefix "data:" (lower u') = false →
       OnRequest u' ∈ (_handle_message b64decode (Network_requestWillBeSent u') w b').2)
  ∧ (∀ b' u' w, (_handle_message b64decode (Network_requestWillBeSent u') w b').1 = b').
Proof.
  split_and!.
  - destruct (_websocket_url b) as [ws|] eqn:Hws.
    2: { unfold browse_page. rewrite Hws. simpl. intros u' H.
         by apply not_elem_of_nil in H. }
    pose (R := λ (b0 : t) (tr : list event) (b1 : t),
                 on_request b1 = on_request b0
                 ∧ ∀ u', OnRequest u' ∈ tr →
                         on_request b0 = true
                         ∧ String.prefix "data:" (lower u') = false).
    assert (R (begin_visit u req shot chg ws started b)
              (browse_page b64decode u req shot chg started sched b).2
              (browse_page b64decode u req shot chg started sched b).1.2) as [_ H].
    { apply (browse_page_rel (λ _, True) R u req shot chg started sched b ws);
        unfold R; [| | | | |done|by apply Forall_true].
      - intros b0. split; [done|]. intros u' H. by apply not_elem_of_nil in H.
      - intros b0 t1 b1 t2 b2 [E1 H1] [E2 H2]. split; [congruence|].
        intros u' [Hin|Hin]%elem_of_app; [by apply H1|].
        rewrite <- E1. by apply H2.
      - intros s b0 _. split; [apply (beside_same_visit b64decode s b0)|].
        intros u'. destruct s as [|m w|method param| |tk]; unfold_step; simpl;
          try destruct m; repeat (case_match || case_decide); simplify_eq/=;
          rewrite ?elem_of_app, ?elem_of_cons, ?elem_of_nil;
          intros Hin; destruct_or?; simplify_eq/=; try done.
      - intros tk b0 _. split; [apply (interval_same_visit tk b0)|].
        intros u'. unfold_step. repeat (case_match || case_decide); simplify_eq/=;
          rewrite ?elem_of_cons, ?elem_of_nil; intros Hin; destruct_or?;
          simplify_eq/=; done.
      - intros b0 c. split; [done|]. intros u'. destruct c; simpl;
          rewrite ?elem_of_cons, ?elem_of_nil; intros Hin; destruct_or?; done. }
    intros u' Hin. by apply H.
  - intros b' u' w [bh Hbh]. simpl. rewrite Hbh. apply elem_of_app. left. by left.
  - intros b' u' w Hr Hp. simpl. rewrite Hp, Hr. apply elem_of_app. right. by left.
  - done.
Qed.


(** X9.  When the socket is found closed at a tick, a visit in its loop
    ends with [BrowsingException], whatever else holds then (outlinks
    there, hard timeout passed, abort asked for); the teardown does not
    close the websocket again and clears the behavior. *)
Theorem transport_death_raises (u : string) (req shot chg : bool) (started : Z)
    (sched : list step) (b b1 : t) (tr1 : list event) (tk : tick) (rest : list step) :
  browse_page b64decode u req shot chg started sched b = (Running, b1, tr1) →
  sock_connected tk = false →
  browse_page b64decode u req shot chg started (sched ++ Tick tk :: rest) b
  = (Raise BrowsingException, set_behavior None b1, tr1).
Proof.
  intros Hrun Hc.
  rewrite (browse_page_tick b64decode _ _ _ _ _ _ _ _ _ tk rest Hrun).
  cbn [browse_loop]. unfold _browse_interval_func. rewrite Hc.
  destruct (_websock b1); simpl; by rewrite !app_nil_r.
Qed.

Lemma browse_loop_ends sched : ∀ b,
  (browse_loop b64decode sched b).1.1.1 ≠ Running →
  (∃ tk, Tick tk ∈ sched)
  ∧ ∀ e, (browse_loop b64decode sched b).1.1.1 = Raise e →
         is_browsing_exception e = true.
Proof.
  induction sched as [|s sched IH]; intros b Hne; [done|].
  destruct s as [|m w|method param| |tk]; cbn [browse_loop] in *.
  5: { split; [exists tk; by left|].
       assert (∀ e, (_browse_interval_func tk b).1.1 = Raise e →
                    is_browsing_exception e = true) as He.
       { intros e. unfold_step. repeat (case_match || case_decide); simplify_eq/=;
           intros; simplify_eq/=; done. }
       destruct (_browse_interval_func tk b) as [[r b'] tr'].
       destruct r as [[[|]|]| |]; simpl in *; try done.
       - specialize (IH b').
         destruct (browse_loop b64decode sched b') as [[[o b2] tr2] c2].
         simpl in *. by apply IH.
       - specialize (IH b').
         destruct (browse_loop b64decode sched b') as [[[o b2] tr2] c2].
         simpl in *. by apply IH.
       - intros e' [= <-]. by apply He. }
  all: destruct (beside b64decode _ b) as [b' tr']; specialize (IH b');
    destruct (browse_loop b64decode sched b') as [[[o b2] tr2] c2];
    simpl in *; destruct (IH Hne) as [[tk Htk] He];
    (split; [exists tk; by right | done]).
Qed.

(** X10.  However a visit ends, by returning or by raising, on a browser
    that was started: it ended at a tick of the poller, the behavior has
    been cleared, and what is raised is a [BrowsingException] or its
    subclass [BrowsingAborted]. *)
Theorem visit_end (u : string) (req shot chg : bool) (started : Z)
    (sched : list step) (b : t) :
  is_Some (_websocket_url b) →
  (browse_page b64decode u req shot chg started sched b).1.1 ≠ Running →
  _behavior (browse_page b64decode u req shot chg started sched b).1.2 = None
  ∧ (∃ tk, Tick tk ∈ sched)
  ∧ ∀ e, (browse_page b64decode u req shot chg started sched b).1.1 = Raise e →
         is_browsing_exception e = true.
Proof.
  intros [ws Hws]. unfold browse_page. rewrite Hws.
  pose proof (browse_loop_ends sched (begin_visit u req shot chg ws started b)) as He.
  destruct (browse_loop b64decode sched _) as [[[o b2] tr2] c2]. simpl in He.
  destruct o; simpl; intros Hne; try done; destruct He as [Ht Hk]; try done.
Qed.

End VisitMore.

Section OutlinksMore.
Import Browser.

Variable b64decode : string → option string.

Ltac use_slots :=
  repeat match goal with
         | H : ∀ id, ?x = Some id → _, E : ?x = Some _ |- _ =>
             pose proof (H _ E); clear H
         end.

(** The ids waited for stay below the counter. *)
Lemma slots_below_beside s b :
  slots_below b → slots_below (beside b64decode s b).1.
Proof.
  unfold slots_below. intros (H1 & H2 & H3).
  destruct s as [|m w|method param| |tk]; unfold_step; simpl;
    try destruct m; repeat (case_match || case_decide); simplify_eq/=;
    split_and!; intros id' Hid; simplify_eq/=; use_slots; try done; lia.
Qed.

Lemma slots_below_tick tk b :
  slots_below b → slots_below (_browse_interval_func tk b).1.2.
Proof.
  unfold slots_below. intros (H1 & H2 & H3).
  unfold_step. repeat (case_match || case_decide); simplify_eq/=;
    split_and!; intros id' Hid; simplify_eq/=; use_slots; try done; lia.
Qed.

Lemma slots_below_running u req shot chg started sched b b1 tr1 :
  browse_page b64decode u req shot chg started sched b = (Running, b1, tr1) →
  slots_below b1.
Proof.
  intros Hrun. destruct (browse_page_running b64decode _ _ _ _ _ _ _ _ _ Hrun)
    as (ws & c1 & Hws & Hloop & _).
  pose proof (browse_loop_rel b64decode (λ _, True)
                (λ b0 _ b2, slots_below b0 → slots_below b2)) as H.
  specialize (H (λ _ h, h)).
  specialize (H (λ _ _ _ _ _ h1 h2 h, h2 (h1 h))).
  specialize (H (λ s b0 _, slots_below_beside s b0)).
  specialize (H (λ tk b0 _, slots_below_tick tk b0)).
  specialize (H sched (begin_visit u req shot chg ws started b) (Forall_true _ _ (λ _, I))).
  rewrite Hloop in H. simpl in H. apply H. by repeat split.
Qed.

Lemma truthy_fields v :
  bool_decide ((list_to_set (split space v) : gset string) ≠ ∅) = true.
Proof.
  apply bool_decide_eq_true. intros Hempty.
  pose proof (split_acc_nonempty space v EmptyString) as Hne.
  destruct (split space v) as [|x l] eqn:E; [done|].
  assert (x ∈ (list_to_set (x :: l) : gset string)) as Hx by set_solver.
  rewrite Hempty in Hx. by apply not_elem_of_empty in Hx.
Qed.

(** X11.  From a visit in its loop whose behavior is there, with no
    outlinks and no id waited for: a tick at which the behavior is finished
    sends the outlinks query with the next id and goes on; the reply with
    that id stores the fields of its string; the tick after that returns
    them, after the teardown.  Two ticks and one reply end the visit. *)
Theorem outlinks_round (u : string) (req shot chg : bool) (started : Z)
    (sched : list step) (b b1 : t) (tr1 : list event) (tk1 tk2 : tick)
    (r : reply) (v : string) (w : bool) (rest : list step) :
  browse_page b64decode u req shot chg started sched b = (Running, b1, tr1) →
  is_Some (_behavior b1) →
  _outlinks b1 = None →
  _waiting_on_outlinks_msg_id b1 = None →
  sock_connected tk1 = true → behavior_finished tk1 = true →
  sock_connected tk2 = true → behavior_finished tk2 = true →
  value r = Some (JString v) →
  browse_page b64decode u req shot chg started
    (sched ++ Tick tk1 :: WsMessage (Reply (Some (command_id b1)) r) w :: Tick tk2 :: rest) b
  = (Done (Some (list_to_set (split space v))),
     set_behavior None
       (set_outlinks (Some (list_to_set (split space v)))
          (set_waiting_on_outlinks_msg_id (Some (command_id b1))
             (set_command_id (command_id b1 + 1) b1))),
     tr1 ++ [Sent (command_id b1) "Runtime.evaluate" outlinks_expression; WebsockClose]).
Proof.
  intros Hrun [bh Hbh] Ho Hw Hc1 Hf1 Hc2 Hf2 Hv.
  pose proof (slots_below_running _ _ _ _ _ _ _ _ _ Hrun) as (Hs1 & _ & _).
  destruct (browse_page_running b64decode _ _ _ _ _ _ _ _ _ Hrun)
    as (ws & c1 & Hws & Hloop & Hst & [ws' Hws'] & _).
  rewrite (browse_page_tick b64decode _ _ _ _ _ _ _ _ _ tk1 _ Hrun).
  cbn [browse_loop beside]. unfold _browse_interval_func at 1.
  rewrite Hws', Hc1, Hbh, Hf1, Ho, Hw. cbn.
  unfold _handle_message. cbn.
  rewrite decide_False.
  2: { intros Heq. symmetry in Heq. apply Hs1 in Heq. lia. }
  rewrite decide_True by done. rewrite Hv. cbn.
  unfold _browse_interval_func. cbn. rewrite Hws', Hc2, Hbh, Hf2.
  rewrite truthy_fields. cbn. by rewrite <- app_assoc.
Qed.

(** X12.  While the behavior is finished and the reply to the outlinks
    query is waited for, a tick with the socket connected does nothing at
    all: the hard timeout and the abort flag are not looked at, however
    late the clock and whether or not abort was asked for.  The visit stays
    in its loop until the reply comes or the socket closes. *)
Theorem waiting_for_outlinks_ignores_timeout_and_abort (u : string)
    (req shot chg : bool) (started : Z) (sched : list step) (b b1 : t)
    (tr1 : list event) (ticks : list tick) :
  browse_page b64decode u req shot chg started sched b = (Running, b1, tr1) →
  is_Some (_behavior b1) →
  truthy_outlinks (_outlinks b1) = false →
  truthy_id (_waiting_on_outlinks_msg_id b1) = true →
  Forall (λ tk, sock_connected tk = true ∧ behavior_finished tk = true) ticks →
  browse_page b64decode u req shot chg started (sched ++ (Tick <$> ticks)) b
  = (Running, b1, tr1).
Proof.
  intros Hrun [bh Hbh] Ho Hw Hticks.
  destruct (browse_page_running b64decode _ _ _ _ _ _ _ _ _ Hrun)
    as (ws & c1 & Hws & Hloop & Hst & [ws' Hws'] & _).
  unfold browse_page. rewrite Hws.
  rewrite (browse_loop_app b64decode _ _ _ _ _ (Tick <$> ticks) Hloop).
  assert (∃ c, browse_loop b64decode (Tick <$> ticks) b1 = (Running, b1, [], c))
    as [c ->].
  { induction Hticks as [|tk ticks [Hc Hf] _ [c IH]]; [by eexists|].
    cbn [fmap list_fmap browse_loop]. unfold _browse_interval_func.
    rewrite Hws', Hc, Hbh, Hf, Ho, Hw. simpl.
    change (list_fmap tick step Tick ticks) with (Tick <$> ticks).
    rewrite IH. by eexists. }
  by rewrite app_nil_r.
Qed.

Lemma outlinks_queries_app t1 t2 :
  outlinks_queries (t1 ++ t2) = (outlinks_queries t1 + outlinks_queries t2)%nat.
Proof. unfold outlinks_queries. by rewrite filter_app, length_app. Qed.

Lemma outlinks_queries_cons e tr :
  outlinks_queries (e :: tr)
  = ((if is_outlinks_query e then 1 else 0) + outlinks_queries tr)%nat.
Proof.
  unfold outlinks_queries. rewrite filter_cons.
  destruct (is_outlinks_query e); by case_decide.
Qed.

Lemma asks_once_app b t1 b1 t2 b2 :
  asks_once b t1 b1 → asks_once b1 t2 b2 → asks_once b (t1 ++ t2) b2.
Proof.
  unfold asks_once. intros H1 H2 Hc.
  destruct (H1 Hc) as (Hc1 & Ha1 & Hb1 & Hd1).
  destruct (H2 Hc1) as (Hc2 & Ha2 & Hb2 & Hd2).
  rewrite outlinks_queries_app. split_and!; [done| | |].
  - intros Ht. destruct (Ha1 Ht) as [Ht1 ->]. destruct (Ha2 Ht1) as [Ht2 ->]. done.
  - destruct (decide (outlinks_queries t1 = 1%nat)) as [E|E].
    + destruct (Ha2 (Hd1 E)) as [_ ->]. lia.
    + lia.
  - intros E. destruct (decide (outlinks_queries t1 = 1%nat)) as [E1|E1].
    + by destruct (Ha2 (Hd1 E1)) as [? _].
    + apply Hd2. lia.
Qed.

Ltac count_queries :=
  rewrite ?outlinks_queries_cons; cbn [is_outlinks_query];
  repeat (rewrite bool_decide_eq_false_2 by (intros [? ?]; done));
  repeat (rewrite bool_decide_eq_true_2 by done);
  change (outlinks_queries []) with 0%nat.

Lemma asks_once_beside s b :
  sends_outlinks_query s = false →
  asks_once b (beside b64decode s b).2 (beside b64decode s b).1.
Proof.
  unfold asks_once. intros Hq Hc.
  destruct s as [|m w|method param| |tk]; unfold_step; simpl in *;
    try destruct m; repeat (case_match || case_decide); simplify_eq/=;
    rewrite ?outlinks_queries_app; count_queries; rewrite ?Hq;
    split_and!; try done; try lia; intros; split_and?; try done; lia.
Qed.

Lemma asks_once_tick tk b :
  asks_once b (_browse_interval_func tk b).2 (_browse_interval_func tk b).1.2.
Proof.
  unfold asks_once. intros Hc.
  unfold_step. repeat (case_match || case_decide); simplify_eq/=;
    count_queries; split_and!; try done; try lia;
    try (intros; split_and?; try done; lia).
  all: try (intros _; apply bool_decide_eq_true; lia).
  all: try (intros Ht; rewrite Ht in *; done).
Qed.

(** X13.  On a browser whose command counter is at least 1, as
    [Browser()] makes it and every visit leaves it, the outlinks query is
    sent at most once in a visit, if the behavior does not send that same
    query itself. *)
Theorem outlinks_query_at_most_once (u : string) (req shot chg : bool) (started : Z)
    (sched : list step) (b : t) :
  1 ≤ command_id b →
  Forall (λ s, sends_outlinks_query s = false) sched →
  (outlinks_queries (browse_page b64decode u req shot chg started sched b).2 ≤ 1)%nat
  ∧ 1 ≤ command_id (browse_page b64decode u req shot chg started sched b).1.2.
Proof.
  intros Hc HQ. destruct (_websocket_url b) as [ws|] eqn:Hws.
  2: { unfold browse_page. rewrite Hws. simpl. split; [|done].
       change (outlinks_queries []) with 0%nat. lia. }
  assert (asks_once (begin_visit u req shot chg ws started b)
            (browse_page b64decode u req shot chg started sched b).2
            (browse_page b64decode u req shot chg started sched b).1.2) as H.
  { apply (browse_page_rel b64decode (λ s, sends_outlinks_query s = false) asks_once
             u req shot chg started sched b ws).
    - intros b0 Hc0. change (outlinks_queries []) with 0%nat.
      split_and!; [done|done|lia|done].
    - intros. by eapply asks_once_app.
    - intros. by apply asks_once_beside.
    - intros. apply asks_once_tick.
    - intros b0 c Hc0. destruct c; simpl; count_queries;
        split_and!; try done; lia.
    - done.
    - done. }
  destruct (H Hc) as (? & _ & ? & _). done.
Qed.

End OutlinksMore.

(** ** Chrome and Browser: start, stop and what they leave behind *)

Section LifeMore.
Import Chrome.

Variable b64decode : string → option string.

Lemma start_loop_trace get started obs :
  Forall (λ s, touches_fs s = false ∧ touches_process s = false)
         (start_loop get started obs).2
  ∧ ∀ e, (start_loop get started obs).1 = Raise e → e = StartupFailure.
Proof.
  induction obs as [|[response t] obs [IH1 IH2]]; cbn [start_loop].
  - split; [constructor|done].
  - case_decide; [split; [by repeat constructor|by intros e [= <-]]|].
    destruct (poll_once response); [split; [by repeat constructor|done]|].
    destruct (start_loop get started obs) as [o tr]. simpl in *.
    split; [by repeat (constructor; [done|])|done].
Qed.

(** What [Browser.start] does once the directory is made and chrome is
    spawned, whatever comes of the polling. *)
Lemma browser_start_spec proxy_arg tmp new_pid spawned obs b :
  let c0 := __init__ (Browser.chrome_port b) (Browser.chrome_exe b) tmp
              (tmp +:+ "/" +:+ "chrome-user-data")
              (Browser.proxy_or proxy_arg (Browser.proxy b))
              (Browser.ignore_cert_errors b) in
  let st := Browser.start proxy_arg (Some tmp) (Some new_pid) spawned obs b in
  st.1.1 = match (start_loop (json_url c0) spawned obs).1 with
           | Done _ => Done ()
           | Raise e => Raise e
           | Running => Running
           end
  ∧ st.2 = Mkdtemp tmp :: Browser.finalized b ++ Spawn (chrome_args c0) tmp
           :: (start_loop (json_url c0) spawned obs).2
  ∧ Browser._chrome_instance st.1.2
    = Some (with_process {| pid := new_pid; returncode := None |} spawned c0)
  ∧ Browser._work_dir st.1.2 = Some (Some tmp)
  ∧ Browser._websocket_url st.1.2
    = match (start_loop (json_url c0) spawned obs).1 with
      | Done u => Some u
      | _ => Browser._websocket_url b
      end
  ∧ (∀ fs, fs_run st.2 fs
           = {[tmp +:+ "/" +:+ "chrome-user-data"]}
             ∪ fs_run (Browser.finalized b) ({[tmp]} ∪ fs)).
Proof.
  intros c0 st. unfold st, Browser.start, start. fold c0.
  pose proof (start_loop_trace (json_url c0) spawned obs) as [Htr _].
  destruct (start_loop (json_url c0) spawned obs) as [o trl]. simpl in Htr.
  assert (∀ fs, fs_run (Mkdtemp tmp :: Browser.finalized b
                        ++ Spawn (chrome_args c0) tmp :: trl) fs
                = {[tmp +:+ "/" +:+ "chrome-user-data"]}
                  ∪ fs_run (Browser.finalized b) ({[tmp]} ∪ fs)) as Hfs.
  { intros fs.
    change (Mkdtemp tmp :: Browser.finalized b ++ Spawn (chrome_args c0) tmp :: trl)
      with ([Mkdtemp tmp] ++ Browser.finalized b
            ++ [Spawn (chrome_args c0) tmp] ++ trl).
    rewrite !fs_run_app, (fs_run_untouched trl).
    - cbn [fs_run foldl fs_step]. by rewrite profile_dir_chrome_args.
    - eapply Forall_impl; [exact Htr|]. by intros ? [? _]. }
  destruct o; simpl; split_and!; done.
Qed.

(** The directories after the finalizer of the old working directory. *)
Lemma fs_run_finalized b fs p :
  p ∈ fs_run (Browser.finalized b) fs
  ↔ p ∈ fs ∧ ∀ old, Browser._work_dir b = Some (Some old) → ¬ below old p.
Proof.
  unfold Browser.finalized. destruct (Browser._work_dir b) as [[old|]|].
  - rewrite fs_run_rmtree. split.
    + intros [? Hn]. split; [done|]. by intros ? [= <-].
    + intros [? Hn]. split; [done|]. by apply Hn.
  - cbn. split; [|by intros [? _]]. intros ?. split; [done|]. by intros ? [=].
  - cbn. split; [|by intros [? _]]. intros ?. split; [done|]. by intros ? [=].
Qed.

(** X14.  [start] followed by [stop] leaves the directories as [start]
    found them, but for the working directory of an earlier [start] that
    was not followed by [stop]: that one is removed when [start] assigns
    the new one.  This holds when [start] made its directory and spawned
    chrome, whether chrome then became ready, the polling timed out or
    chrome had to be killed, and when nothing existed at or below the name
    of the new directory; [stop] returns when every sleep lasts at least
    half a second. *)
Theorem start_stop_restores_directories (b0 : Browser.t) (proxy_arg : option string)
    (tmp : string) (new_pid spawned : Z)
    (obs_start : list (option (list target) * Z))
    (now : Z) (obs : list (Z * option Z)) (wait_status : Z) (fs : gset string) :
  (∀ p, p ∈ fs → ¬ below tmp p) →
  Forall (λ o, 500 ≤ o.1) obs →
  (600 ≤ length obs)%nat →
  let started :=
    Browser.start proxy_arg (Some tmp) (Some new_pid) spawned obs_start b0 in
  ∃ b2 tr,
    Browser.stop now obs wait_status started.1.2 = Done (b2, tr)
    ∧ fs_run (started.2 ++ tr) fs = fs_run (Browser.finalized b0) fs
    ∧ (Browser._work_dir b0 = None ∨ Browser._work_dir b0 = Some None →
       fs_run (started.2 ++ tr) fs = fs)
    ∧ (∀ old, Browser._work_dir b0 = Some (Some old) →
       fs_run (started.2 ++ tr) fs = filter (λ p, ¬ below old p) fs)
    ∧ Browser._chrome_instance b2 = None
    ∧ Browser._work_dir b2 = Some None.
Proof.
  intros Hfresh Hsl Hlen started.
  destruct (browser_start_spec proxy_arg tmp new_pid spawned obs_start b0)
    as (_ & _ & Hc & Hw & _ & Hfs).
  fold started in Hc, Hw, Hfs.
  destruct (chrome_stop_total
              (with_process {| pid := new_pid; returncode := None |} spawned
                 (__init__ (Browser.chrome_port b0) (Browser.chrome_exe b0) tmp
                    (tmp +:+ "/" +:+ "chrome-user-data")
                    (Browser.proxy_or proxy_arg (Browser.proxy b0))
                    (Browser.ignore_cert_errors b0)))
              {| pid := new_pid; returncode := None |}
              now obs wait_status eq_refl Hsl Hlen)
    as (c' & p' & tr & Hstop & _ & _ & _ & _ & _ & Hnofs).
  assert (fs_run (started.2 ++ tr ++ [Rmtree tmp]) fs
          = fs_run (Browser.finalized b0) fs) as Heq.
  { rewrite app_assoc, fs_run_app, fs_run_app, Hfs, (fs_run_untouched tr) by done.
    apply set_eq. intros p.
    rewrite fs_run_rmtree, elem_of_union, elem_of_singleton, !fs_run_finalized,
      elem_of_union, elem_of_singleton.
    split.
    - intros [[->|[[->|?] ?]] Hn]; [| |done]; exfalso; apply Hn.
      + right. by apply prefix_app.
      + by left.
    - intros [Hp Hold]. split; [auto|]. by apply Hfresh. }
  eexists _, (tr ++ [Rmtree tmp]). split_and!.
  - unfold Browser.stop. rewrite Hc, Hstop, Hw. reflexivity.
  - done.
  - intros Hnone. rewrite Heq. unfold Browser.finalized.
    by destruct Hnone as [-> | ->].
  - intros old Hold. rewrite Heq. unfold Browser.finalized. by rewrite Hold.
  - done.
  - done.
Qed.

(** X15.  Once [stop] has returned, a second [stop] returns at once: it
    signals nothing, removes nothing and leaves the browser as it is.  On a
    browser that was never started [stop] raises [AttributeError]. *)
Theorem stop_is_idempotent (now : Z) (obs : list (Z * option Z)) (wait_status : Z)
    (b b2 : Browser.t) (tr : list syscall) :
  Browser.stop now obs wait_status b = Done (b2, tr) →
  (∀ now' obs' wait_status',
     Browser.stop now' obs' wait_status' b2 = Done (b2, []))
  ∧ (∀ port exe proxy ignore now' obs' wait_status',
       Browser.stop now' obs' wait_status' (Browser.__init__ port exe proxy ignore)
       = Raise AttributeError).
Proof.
  intros Hstop. split; [|done].
  intros now' obs' wait_status'. revert Hstop. unfold Browser.stop.
  destruct (Browser._chrome_instance b) as [c|] eqn:Hc.
  - destruct (stop now obs wait_status c) as [[c' trc]| |]; try done.
    cbn. destruct (Browser._work_dir b) as [[d|]|]; try done;
      intros [= <- <-]; done.
  - destruct (Browser._work_dir b) as [[d|]|] eqn:Hw; try done.
    + intros [= <- <-]. cbn. rewrite Hc. done.
    + intros [= <- <-]. by rewrite Hc, Hw.
Qed.


End LifeMore.

Section ChromeMore.
Import Chrome.

(** X17.  What an outcome of [Chrome.start] says about the spawn and the
    polls.  If it returns a URL, chrome was spawned, the URL was read at a
    poll whose clock was still within 600 s of the spawn, and every poll
    before found nothing and was within the time too.  If it raises, then
    either [subprocess.Popen] raised, and nothing was assigned and no poll
    made, or it is the startup error, at the first poll whose clock is past
    600 s, every poll before having found nothing.  As long as neither has
    happened it keeps polling.  Whenever chrome was spawned, the [Popen]
    object is recorded with no exit status collected, and [start] has sent
    it no signal and has not polled or waited for it. *)
Theorem chrome_start_outcomes (c : t) (new_pid : option Z) (spawned : Z)
    (obs : list (option (list target) * Z)) :
  let quiet := λ o : option (list target) * Z,
                 poll_once o.1 = None ∧ o.2 - spawned ≤ 600 * 1000 in
  match (start new_pid spawned obs c).1.1 with
  | Done u =>
      is_Some new_pid
      ∧ ∃ waiting response now rest,
          obs = waiting ++ (response, now) :: rest
          ∧ Forall quiet waiting
          ∧ poll_once response = Some u
          ∧ now - spawned ≤ 600 * 1000
  | Raise e =>
      (new_pid = None ∧ e = OSError
       ∧ start new_pid spawned obs c
         = (Raise OSError, c, [SpawnError (chrome_args c) (user_home_dir c)]))
      ∨ (is_Some new_pid ∧ e = StartupFailure
         ∧ ∃ waiting response now rest,
             obs = waiting ++ (response, now) :: rest
             ∧ Forall quiet waiting
             ∧ now - spawned > 600 * 1000)
  | Running => is_Some new_pid ∧ Forall quiet obs
  end
  ∧ (∀ pid, new_pid = Some pid →
       chrome_process (start new_pid spawned obs c).1.2
       = Some {| pid := pid; returncode := None |}
       ∧ Forall (λ s, touches_process s = false) (start new_pid spawned obs c).2).
Proof.
  intros quiet. split.
  2: { intros pid ->. unfold start.
       pose proof (start_loop_trace (json_url c) spawned obs) as [Htr _].
       destruct (start_loop _ _ _) as [o tr]. split; [done|]. simpl in *.
       constructor; [done|]. eapply Forall_impl; [exact Htr|]. by intros ? [_ ?]. }
  destruct new_pid as [pid|]; [|left; done].
  assert ((start (Some pid) spawned obs c).1.1 = (start_loop (json_url c) spawned obs).1)
    as -> by (unfold start; by destruct (start_loop _ _ _)).
  assert (match (start_loop (json_url c) spawned obs).1 with
          | Done u =>
              ∃ waiting response now rest,
                obs = waiting ++ (response, now) :: rest
                ∧ Forall quiet waiting
                ∧ poll_once response = Some u
                ∧ now - spawned ≤ 600 * 1000
          | Raise e =>
              e = StartupFailure
              ∧ ∃ waiting response now rest,
                  obs = waiting ++ (response, now) :: rest
                  ∧ Forall quiet waiting
                  ∧ now - spawned > 600 * 1000
          | Running => Forall quiet obs
          end) as H.
  { induction obs as [|[response now] obs IH]; cbn [start_loop]; [by constructor|].
    case_decide as Ht.
    - simpl. split; [done|]. exists [], response, now, obs.
      split_and!; [done|constructor|]. unfold timeout_sec_start in Ht. lia.
    - destruct (poll_once response) as [u|] eqn:Hp.
      + simpl. exists [], response, now, obs.
        split_and!; [done|constructor|done|]. unfold timeout_sec_start in Ht. lia.
      + assert (quiet (response, now)) as Hq.
        { split; [done|]. simpl. unfold timeout_sec_start in Ht. lia. }
        destruct (start_loop (json_url c) spawned obs) as [o tr]. simpl in *.
        destruct o as [u|e|].
        * destruct IH as (waiting & r' & n' & rest & -> & Hw & Hu & Hn).
          exists ((response, now) :: waiting), r', n', rest.
          split_and!; [done|by constructor|done|done].
        * destruct IH as (-> & waiting & r' & n' & rest & -> & Hw & Hn).
          split; [done|]. exists ((response, now) :: waiting), r', n', rest.
          split_and!; [done|by constructor|done].
        * by constructor. }
  destruct (start_loop (json_url c) spawned obs).1 as [u|e|].
  - split; [by eexists|done].
  - right. destruct H as [-> H]. split; [by eexists|]. by split.
  - split; [by eexists|done].
Qed.

Lemma slept_total_nonneg obs :
  Forall (λ o : Z * option Z, 0 ≤ o.1 ∧ o.2 = None) obs → 0 ≤ slept_total obs.
Proof. induction 1 as [|o obs [? _] _ IH]; simpl; lia. Qed.

Lemma stop_loop_exit quiet : ∀ first_sigterm last_sigterm now p slept st rest,
  Forall (λ o, 0 ≤ o.1 ∧ o.2 = None) quiet →
  now + slept_total quiet - first_sigterm < timeout_sec_stop * 1000 →
  ∃ tr,
    stop_loop (quiet ++ (slept, Some st) :: rest) first_sigterm last_sigterm now p
    = Some (Exited, reaped st p, tr)
    ∧ Forall (λ s, s ≠ Signal (pid p) SIGKILL ∧ s ≠ Wait (pid p)) tr
    ∧ length (filter (λ s, s = Poll (pid p)) tr) = S (length quiet).
Proof.
  induction quiet as [|[sl status] quiet IH];
    intros first_sigterm last_sigterm now p slept st rest Hq Ht.
  - simpl in Ht. cbn [app stop_loop]. rewrite decide_True by lia.
    eexists. split; [done|]. split; [by repeat constructor|].
    rewrite !filter_cons. rewrite decide_False by done. by rewrite decide_True by done.
  - apply Forall_cons in Hq as [[Hsl Hst] Hq]. simpl in Hsl, Hst. subst status.
    pose proof (slept_total_nonneg quiet Hq) as Hnn.
    simpl in Ht. cbn [app stop_loop]. rewrite decide_True by lia.
    case_decide.
    + destruct (IH first_sigterm (now + sl) (now + sl) p slept st rest Hq)
        as (tr & -> & Hno & Hlen); [lia|].
      eexists. split; [done|]. split; [by repeat (constructor; [done|])|].
      rewrite !filter_cons. rewrite decide_False by done.
      rewrite decide_True by done. rewrite decide_False by done.
      simpl. by rewrite Hlen.
    + destruct (IH first_sigterm last_sigterm (now + sl) p slept st rest Hq)
        as (tr & -> & Hno & Hlen); [lia|].
      eexists. split; [done|]. split; [by repeat (constructor; [done|])|].
      rewrite !filter_cons. rewrite decide_False by done.
      rewrite decide_True by done. simpl. by rewrite Hlen.
Qed.

(** X18.  If chrome is seen to have exited at a poll, after polls that
    saw it alive and whose sleeps add up to less than 300 s, [stop] returns
    at that poll: the exit status it saw is the one recorded, no SIGKILL is
    sent, [wait()] is not called, and it has polled once more than the
    number of earlier polls. *)
Theorem chrome_stop_on_exit (c : t) (p : Popen) (now : Z)
    (quiet : list (Z * option Z)) (slept st : Z) (rest : list (Z * option Z))
    (wait_status : Z) :
  chrome_process c = Some p →
  Forall (λ o, 0 ≤ o.1 ∧ o.2 = None) quiet →
  slept_total quiet < 300 * 1000 →
  ∃ c' tr,
    stop now (quiet ++ (slept, Some st) :: rest) wait_status c = Done (c', tr)
    ∧ chrome_process c' = Some {| pid := pid p; returncode := Some st |}
    ∧ (Signal (pid p) SIGKILL ∉ tr)
    ∧ (Wait (pid p) ∉ tr)
    ∧ length (filter (λ s, s = Poll (pid p)) tr) = S (length quiet).
Proof.
  intros Hp Hq Ht. unfold stop. rewrite Hp.
  destruct (stop_loop_exit quiet now now now p slept st rest Hq)
    as (tr & -> & Hno & Hlen); [unfold timeout_sec_stop; lia|].
  rewrite Forall_forall in Hno.
  eexists _, _. split_and!; [done|done| | |].
  - intros [?|Hin]%elem_of_cons; [done|]. by destruct (Hno _ Hin).
  - intros [?|Hin]%elem_of_cons; [done|]. by destruct (Hno _ Hin).
  - rewrite filter_cons, decide_False by done. done.
Qed.

Lemma stop_loop_never_exits obs : ∀ first_sigterm last_sigterm now p e p' tr,
  Forall (λ o : Z * option Z, o.2 = None) obs →
  stop_loop obs first_sigterm last_sigterm now p = Some (e, p', tr) →
  e = TimedOut ∧ p' = p.
Proof.
  induction obs as [|[sl status] obs IH];
    intros first_sigterm last_sigterm now p e p' tr Hn; cbn [stop_loop];
    case_decide; try done; try by intros [= <- <- <-].
  apply Forall_cons in Hn as [Hs Hn]. simpl in Hs. subst status.
  case_decide.
  - destruct (stop_loop obs first_sigterm (now + sl) (now + sl) p)
      as [[[e0 p0] tr0]|] eqn:E; [|done].
    simpl. intros [= <- <- <-]. by eapply IH.
  - destruct (stop_loop obs first_sigterm last_sigterm (now + sl) p)
      as [[[e0 p0] tr0]|] eqn:E; [|done].
    simpl. intros [= <- <- <-]. by eapply IH.
Qed.

(** X19.  If chrome is never seen to exit, and every sleep lasts at
    least half a second, [stop] gives up after 300 s: the last two things
    it does are to send SIGKILL and to wait, SIGKILL being sent just once,
    and the status recorded is the one that [wait()] returned. *)
Theorem chrome_stop_kills_after_timeout (c : t) (p : Popen) (now : Z)
    (obs : list (Z * option Z)) (wait_status : Z) :
  chrome_process c = Some p →
  Forall (λ o, 500 ≤ o.1 ∧ o.2 = None) obs →
  (600 ≤ length obs)%nat →
  ∃ c' tr0,
    stop now obs wait_status c
    = Done (c', tr0 ++ [Signal (pid p) SIGKILL; Wait (pid p)])
    ∧ chrome_process c' = Some {| pid := pid p; returncode := Some wait_status |}
    ∧ (Signal (pid p) SIGKILL ∉ tr0)
    ∧ head tr0 = Some (Signal (pid p) SIGTERM).
Proof.
  intros Hp Hobs Hlen. unfold stop. rewrite Hp.
  destruct (stop_loop_total obs now now now p) as (e & p' & tr & Hl & _ & _ & _ & Htr).
  { eapply Forall_impl; [exact Hobs|]. by intros ? [? _]. }
  { unfold timeout_sec_stop. lia. }
  destruct (stop_loop_never_exits obs now now now p e p' tr) as [-> ->]; [|done|].
  { eapply Forall_impl; [exact Hobs|]. by intros ? [_ ?]. }
  rewrite Hl. exists (with_process (reaped wait_status p) (_start c) c),
               (Signal (pid p) SIGTERM :: tr).
  split_and!; [done|done| |done].
  intros [?|Hin]%elem_of_cons; [done|].
  rewrite Forall_forall in Htr. by destruct (Htr _ Hin) as (_ & ? & _).
Qed.

Lemma stop_loop_bounds obs : ∀ first_sigterm last_sigterm now p e p' tr,
  Forall (λ o : Z * option Z, 500 ≤ o.1) obs →
  last_sigterm ≤ now →
  stop_loop obs first_sigterm last_sigterm now p = Some (e, p', tr) →
  (now - first_sigterm < timeout_sec_stop * 1000 →
     500 * Z.of_nat (length (filter (λ s, is_sleep s = true) tr))
     < timeout_sec_stop * 1000 - (now - first_sigterm) + 500
     ∧ 10000 * Z.of_nat (length (filter (λ s, is_sigterm s = true) tr))
       < first_sigterm + timeout_sec_stop * 1000 - last_sigterm + 10000)
  ∧ (timeout_sec_stop * 1000 ≤ now - first_sigterm → tr = []).
Proof.
  induction obs as [|[sl status] obs IH];
    intros first_sigterm last_sigterm now p e p' tr Hsl Hlast; cbn [stop_loop];
    case_decide as Hin; try done.
  - intros [= <- <- <-]. split; [lia|done].
  - apply Forall_cons in Hsl as [Hs Hsl]. simpl in Hs.
    destruct status as [st|].
    + intros [= <- <- <-]. split; [|lia]. intros _.
      change (filter (λ s, is_sleep s = true) [Sleep; Poll (pid p)]) with [Sleep].
      change (filter (λ s, is_sigterm s = true) [Sleep; Poll (pid p)])
        with (@nil syscall).
      simpl length. unfold timeout_sec_stop in *. lia.
    + case_decide as Hre.
      * destruct (stop_loop obs first_sigterm (now + sl) (now + sl) p)
          as [[[e0 p0] tr0]|] eqn:E; [|done].
        simpl. intros [= <- <- <-].
        destruct (IH _ _ _ _ _ _ _ Hsl (Z.le_refl _) E) as (Hb & Hnil).
        split; [|lia]. intros _.
        change (filter (λ s, is_sleep s = true)
                  (Sleep :: Poll (pid p) :: Signal (pid p) SIGTERM :: tr0))
          with (Sleep :: filter (λ s, is_sleep s = true) tr0).
        change (filter (λ s, is_sigterm s = true)
                  (Sleep :: Poll (pid p) :: Signal (pid p) SIGTERM :: tr0))
          with (Signal (pid p) SIGTERM :: filter (λ s, is_sigterm s = true) tr0).
        rewrite !length_cons.
        destruct (decide (now + sl - first_sigterm < timeout_sec_stop * 1000)) as [Hlt|Hge].
        -- destruct (Hb Hlt). unfold timeout_sec_stop in *. lia.
        -- rewrite Hnil by lia. simpl. unfold timeout_sec_stop in *. lia.
      * destruct (stop_loop obs first_sigterm last_sigterm (now + sl) p)
          as [[[e0 p0] tr0]|] eqn:E; [|done].
        simpl. intros [= <- <- <-].
        assert (last_sigterm ≤ now + sl) as Hlast' by lia.
        destruct (IH _ _ _ _ _ _ _ Hsl Hlast' E) as (Hb & Hnil).
        split; [|lia]. intros _.
        change (filter (λ s, is_sleep s = true) (Sleep :: Poll (pid p) :: tr0))
          with (Sleep :: filter (λ s, is_sleep s = true) tr0).
        change (filter (λ s, is_sigterm s = true) (Sleep :: Poll (pid p) :: tr0))
          with (filter (λ s, is_sigterm s = true) tr0).
        rewrite !length_cons.
        destruct (decide (now + sl - first_sigterm < timeout_sec_stop * 1000)) as [Hlt|Hge].
        -- destruct (Hb Hlt). unfold timeout_sec_stop in *. lia.
        -- rewrite Hnil by lia. simpl. unfold timeout_sec_stop in *. lia.
  - intros [= <- <- <-]. split; [lia|done].
Qed.

(** X20.  When every sleep lasts at least half a second, [stop] sleeps
    at most 600 times before it returns and sends SIGTERM at most 31 times,
    however chrome behaves. *)
Theorem chrome_stop_bounds (c c' : t) (now : Z) (obs : list (Z * option Z))
    (wait_status : Z) (tr : list syscall) :
  Forall (λ o, 500 ≤ o.1) obs →
  stop now obs wait_status c = Done (c', tr) →
  (length (filter (λ s, is_sleep s = true) tr) ≤ 600)%nat
  ∧ (length (filter (λ s, is_sigterm s = true) tr) ≤ 31)%nat.
Proof.
  intros Hsl. unfold stop. destruct (chrome_process c) as [p|]; [|done].
  destruct (stop_loop obs now now now p) as [[[e p'] tr0]|] eqn:E; [|done].
  destruct (stop_loop_bounds _ _ _ _ _ _ _ _ Hsl (Z.le_refl _) E) as [Hb _].
  destruct Hb as [H1 H2]; [unfold timeout_sec_stop; lia|].
  unfold timeout_sec_stop in *.
  destruct e; intros [= <- <-].
  - change (filter (λ s, is_sleep s = true) (Signal (pid p) SIGTERM :: tr0))
      with (filter (λ s, is_sleep s = true) tr0).
    change (filter (λ s, is_sigterm s = true) (Signal (pid p) SIGTERM :: tr0))
      with (Signal (pid p) SIGTERM :: filter (λ s, is_sigterm s = true) tr0).
    rewrite length_cons. lia.
  - change (filter (λ s, is_sleep s = true)
              (Signal (pid p) SIGTERM :: tr0 ++ [Signal (pid p) SIGKILL; Wait (pid p)]))
      with (filter (λ s, is_sleep s = true)
              (tr0 ++ [Signal (pid p) SIGKILL; Wait (pid p)])).
    change (filter (λ s, is_sigterm s = true)
              (Signal (pid p) SIGTERM :: tr0 ++ [Signal (pid p) SIGKILL; Wait (pid p)]))
      with (Signal (pid p) SIGTERM
            :: filter (λ s, is_sigterm s = true)
                 (tr0 ++ [Signal (pid p) SIGKILL; Wait (pid p)])).
    rewrite length_cons, !filter_app, !length_app.
    change (filter (λ s, is_sleep s = true) [Signal (pid p) SIGKILL; Wait (pid p)])
      with (@nil syscall).
    change (filter (λ s, is_sigterm s = true) [Signal (pid p) SIGKILL; Wait (pid p)])
      with (@nil syscall).
    simpl. lia.
Qed.

End ChromeMore.

Section ArgsMore.
Import Chrome.

(** X21.  The command line that [Browser.start] spawns, or tries to
    spawn, once its temporary directory is made (and the one of an earlier
    [start] finalized): the program first, "about:blank" last, HOME the new
    temporary directory, the profile directory below it, the debugging port
    of the browser.  A non-empty proxy given to [start] is the one passed
    to chrome; without it the browser's own proxy is passed, if it is
    non-empty; if neither is there no proxy argument is passed.  The
    certificate flag is passed just when the browser was made with
    [ignore_cert_errors]. *)
Theorem start_command_line (b : Browser.t) (proxy_arg : option string) (tmp : string)
    (new_pid : option Z) (spawned : Z) (obs : list (option (list target) * Z)) :
  ∃ argv rest,
    (Browser.start proxy_arg (Some tmp) new_pid spawned obs b).2
    = Mkdtemp tmp :: Browser.finalized b
      ++ match new_pid with
         | Some _ => Spawn argv tmp
         | None => SpawnError argv tmp
         end :: rest
    ∧ head argv = Some (Browser.chrome_exe b)
    ∧ last argv = Some "about:blank"
    ∧ "--user-data-dir=" +:+ tmp +:+ "/" +:+ "chrome-user-data" ∈ tail argv
    ∧ "--remote-debugging-port=" +:+ pretty (Browser.chrome_port b) ∈ tail argv
    ∧ (∀ p, proxy_arg = Some p → p ≠ "" → "--proxy-server=" +:+ p ∈ tail argv)
    ∧ (proxy_arg = None ∨ proxy_arg = Some "" →
       ∀ q, Browser.proxy b = Some q → q ≠ "" → "--proxy-server=" +:+ q ∈ tail argv)
    ∧ (proxy_arg = None ∨ proxy_arg = Some "" →
       Browser.proxy b = None ∨ Browser.proxy b = Some "" →
       ∀ a, a ∈ tail argv → strip_prefix "--proxy-server=" a = None)
    ∧ ("--ignore-certificate-errors" ∈ tail argv
       ↔ Browser.ignore_cert_errors b = true).
Proof.
  exists (chrome_args (__init__ (Browser.chrome_port b) (Browser.chrome_exe b) tmp
                         (tmp +:+ "/" +:+ "chrome-user-data")
                         (Browser.proxy_or proxy_arg (Browser.proxy b))
                         (Browser.ignore_cert_errors b))).
  exists (match new_pid with
          | Some _ =>
              (start_loop
                 (json_url (__init__ (Browser.chrome_port b) (Browser.chrome_exe b) tmp
                              (tmp +:+ "/" +:+ "chrome-user-data")
                              (Browser.proxy_or proxy_arg (Browser.proxy b))
                              (Browser.ignore_cert_errors b))) spawned obs).2
          | None => []
          end).
  split.
  { destruct new_pid as [pid|]; [|done].
    by destruct (browser_start_spec proxy_arg tmp pid spawned obs b) as (_ & Htr & _). }
  unfold chrome_args, __init__; cbn [executable user_data_dir port ignore_cert_errors proxy].
  split_and!.
  - done.
  - rewrite !app_assoc. apply last_snoc.
  - cbn [app tail]. rewrite !elem_of_cons. auto.
  - cbn [app tail]. rewrite !elem_of_cons. auto 10.
  - intros p -> Hp. unfold Browser.proxy_or. rewrite decide_False by done.
    rewrite decide_False by done. cbn [app tail].
    rewrite !elem_of_cons, !elem_of_app, !elem_of_cons. auto 20.
  - intros Hnone q Hq Hne. unfold Browser.proxy_or.
    assert (match proxy_arg with
            | Some p => if decide (p = "") then Browser.proxy b else Some p
            | None => Browser.proxy b
            end = Some q) as ->.
    { destruct Hnone as [-> | ->]; [done|]. by rewrite decide_True. }
    rewrite decide_False by done. cbn [app tail].
    rewrite !elem_of_cons, !elem_of_app, !elem_of_cons. auto 20.
  - intros Hnone Hself a. unfold Browser.proxy_or.
    assert (match match proxy_arg with
                  | Some p => if decide (p = "") then Browser.proxy b else Some p
                  | None => Browser.proxy b
                  end with
            | Some p => if decide (p = "") then [] else ["--proxy-server=" +:+ p]
            | None => []
            end = []) as ->.
    { destruct Hnone as [-> | ->]; [|rewrite decide_True by done];
        destruct Hself as [-> | ->]; done. }
    cbn [app tail]. rewrite !elem_of_cons, !elem_of_app, !elem_of_cons.
    destruct (Browser.ignore_cert_errors b);
      rewrite ?elem_of_cons, ?elem_of_nil; intros Ha; destruct_or?; subst; done.
  - cbn [app tail]. rewrite !elem_of_cons, !elem_of_app, !elem_of_cons.
    split.
    + destruct (Browser.ignore_cert_errors b); [done|].
      rewrite ?elem_of_nil. intros Ha. destruct_or?; try done.
      destruct (Browser.proxy_or proxy_arg (Browser.proxy b)) as [p|];
        [case_decide|]; rewrite ?elem_of_cons, ?elem_of_nil in *;
        destruct_or?; done.
    + intros ->. rewrite elem_of_cons. auto 20.
Qed.

Lemma append_prefix_inj p x y : p +:+ x = p +:+ y → x = y.
Proof.
  induction p as [|a p IH]; [done|].
  change (String a (p +:+ x) = String a (p +:+ y) → x = y).
  intros [= H]. by apply IH.
Qed.

(** X22.  [repr] of a browser names its port: two browsers print the
    same just when they have the same port, so the browsers that a pool
    makes all print differently. *)
Theorem browsers_print_their_port (n : nat) (kw : BrowserPool.kwargs)
    (heap : gmap ref Browser.t) :
  (∀ b1 b2, Browser__repr__ b1 = Browser__repr__ b2
            ↔ Browser.chrome_port b1 = Browser.chrome_port b2)
  ∧ (∀ r1 r2 b1 b2,
       r1 ∈ BrowserPool._available (BrowserPool.__init__ n kw heap).1 →
       r2 ∈ BrowserPool._available (BrowserPool.__init__ n kw heap).1 →
       (BrowserPool.__init__ n kw heap).2 !! r1 = Some b1 →
       (BrowserPool.__init__ n kw heap).2 !! r2 = Some b2 →
       Browser__repr__ b1 = Browser__repr__ b2 → r1 = r2).
Proof.
  assert (∀ b1 b2, Browser__repr__ b1 = Browser__repr__ b2
                   ↔ Browser.chrome_port b1 = Browser.chrome_port b2) as Hrepr.
  { intros b1 b2. unfold Browser__repr__. split; [|by intros ->].
    intros H. do 4 apply append_prefix_inj in H. by apply (inj pretty) in H. }
  split; [done|].
  intros r1 r2 b1 b2 Hr1 Hr2 Hb1 Hb2 Heq. apply Hrepr in Heq.
  destruct (create_ports kw n 0 ∅ heap) as (l & Hlen & Hnd & Hav & Hnew & Hport);
    [set_solver|].
  unfold BrowserPool.__init__ in *.
  destruct (BrowserPool.create kw 0 n ∅ heap) as [available' heap'] eqn:E. simpl in *.
  rewrite Hav in Hr1, Hr2.
  assert (r1 ∈ l) as H1 by set_solver. assert (r2 ∈ l) as H2 by set_solver.
  apply list_elem_of_lookup in H1 as [k1 Hk1]. apply list_elem_of_lookup in H2 as [k2 Hk2].
  pose proof (Hport _ _ Hk1) as P1. pose proof (Hport _ _ Hk2) as P2.
  rewrite Hb1 in P1. rewrite Hb2 in P2. injection P1 as ->. injection P2 as ->.
  simpl in Heq. assert (k1 = k2) as -> by lia.
  rewrite Hk1 in Hk2. by injection Hk2.
Qed.

End ArgsMore.

(** ** Instances of the further properties *)

Section MoreExamples.
Import Browser.

(** X2, witness: the first acquire on a pool of size 2. *)
Lemma acquire_release_roundtrip_witness :
  let kw := {| BrowserPool.chrome_exe := "chromium-browser"; BrowserPool.proxy := None;
               BrowserPool.ignore_cert_errors := false |} in
  let p := (BrowserPool.__init__ 2 kw ∅).1 in
  let a := BrowserPool.acquire 0 p in
  BrowserPool._available p ## BrowserPool._in_use p
  ∧ a.1.1 = Done 1%nat
  ∧ (BrowserPool.release 1%nat a.1.2).1.2 = p.
Proof.
  intros kw p a.
  assert (BrowserPool._available p ## BrowserPool._in_use p) as Hd.
  { decide_by_computation. }
  assert (BrowserPool.acquire 0 p = (Done 1%nat, a.1.2, a.2)) as Ha.
  { vm_compute. reflexivity. }
  split; [exact Hd|]. split; [vm_compute; reflexivity|].
  rewrite (acquire_release_roundtrip 0 p a.1.2 1%nat a.2 Hd Ha). reflexivity.
Defined.

(** X3, witness: a pool of size 2 and three acquires. *)
Lemma pool_exhaustion_witness :
  let kw := {| BrowserPool.chrome_exe := "chromium-browser"; BrowserPool.proxy := None;
               BrowserPool.ignore_cert_errors := false |} in
  let p0 := (BrowserPool.__init__ 2 kw ∅).1 in
  length [7%nat; 3%nat] = 2%nat
  ∧ (BrowserPool.acquire 5 (acquire_each [7%nat; 3%nat] p0).2).1.1 = Raise KeyError.
Proof.
  intros kw p0. split; [reflexivity|].
  destruct (pool_exhaustion 2 kw ∅ [7%nat; 3%nat] 5 eq_refl)
    as (l & _ & _ & _ & _ & _ & H).
  exact (f_equal (λ x, x.1.1) H).
Defined.

(** X5, witness: a browser in use, one tick after its websocket opened. *)
Lemma shutdown_aborts_visit_witness :
  let visit := browse_page b64decode_rfc4648 "http://example/" true true true 0
                 [WsOpen] started_browser in
  let p := {| BrowserPool._available := ∅; BrowserPool._in_use := {[ 0%nat ]} |} in
  let heap : gmap ref t := {[ 0%nat := visit.1.2 ]} in
  let tk := {| now := 500; sock_connected := true; behavior_finished := false |} in
  visit.1.1 = Running
  ∧ heap !! 0%nat = Some visit.1.2
  ∧ (browse_page b64decode_rfc4648 "http://example/" true true true 0
       ([WsOpen] ++ AbortCall :: Tick tk :: []) started_browser).1.1
    = Raise BrowsingAborted.
Proof.
  intros visit p heap tk.
  assert (browse_page b64decode_rfc4648 "http://example/" true true true 0
            [WsOpen] started_browser = (Running, visit.1.2, visit.2)) as Hrun.
  { vm_compute. reflexivity. }
  assert (0%nat ∈ BrowserPool._in_use p) as Hin by decide_by_computation.
  assert (heap !! 0%nat = Some visit.1.2) as Hh by apply lookup_singleton_eq.
  assert (now tk - 0 ≤ 1200 * 1000) as Ht by (vm_compute; discriminate).
  split; [vm_compute; reflexivity|]. split; [exact Hh|].
  destruct (shutdown_aborts_visit b64decode_rfc4648 p heap 0%nat "http://example/"
              true true true 0 [WsOpen] started_browser visit.1.2 visit.2 tk []
              Hin Hh Hrun eq_refl (or_intror eq_refl) Ht) as [_ ->].
  reflexivity.
Defined.

(** X9, witness: chrome dies after the page was asked for. *)
Lemma transport_death_raises_witness :
  let tk := {| now := 500; sock_connected := false; behavior_finished := false |} in
  ∃ b1 tr1,
    browse_page b64decode_rfc4648 "http://example/" true true true 0
      [WsOpen] started_browser = (Running, b1, tr1)
    ∧ browse_page b64decode_rfc4648 "http://example/" true true true 0
        ([WsOpen] ++ [Tick tk]) started_browser
      = (Raise BrowsingException, set_behavior None b1, tr1).
Proof.
  intros tk.
  pose (r := browse_page b64decode_rfc4648 "http://example/" true true true 0
               [WsOpen] started_browser).
  assert (browse_page b64decode_rfc4648 "http://example/" true true true 0
            [WsOpen] started_browser = (Running, r.1.2, r.2)) as Hrun.
  { vm_compute. reflexivity. }
  exists r.1.2, r.2. split; [exact Hrun|].
  exact (transport_death_raises b64decode_rfc4648 "http://example/" true true true 0
           [WsOpen] started_browser r.1.2 r.2 tk [] Hrun eq_refl).
Defined.

(** X10, witness: the visit of the first scenario. *)
Lemma visit_end_witness :
  let r := browse_page b64decode_rfc4648 "http://example/" true true true 0
             (happy_path "http://a http://b http://a" ++ [last_tick])
             started_browser in
  is_Some (_websocket_url started_browser)
  ∧ r.1.1 ≠ Running
  ∧ _behavior r.1.2 = None.
Proof.
  intros r.
  assert (is_Some (_websocket_url started_browser)) as Hw by (vm_compute; eauto).
  assert (r.1.1 ≠ Running) as Hne by (vm_compute; discriminate).
  split; [exact Hw|]. split; [exact Hne|].
  destruct (visit_end b64decode_rfc4648 "http://example/" true true true 0
              (happy_path "http://a http://b http://a" ++ [last_tick])
              started_browser Hw Hne) as [H _].
  exact H.
Defined.

(** X11, witness: the page is loaded and the screenshot taken; then the
    behavior is finished and the reply lists two links. *)
Lemma outlinks_round_witness :
  let sched :=
    [WsOpen; WsMessage Page_loadEventFired false;
     WsMessage (Reply (Some 8) {| data := Some (JString "UE5H"); value := None |}) false] in
  let tk := {| now := 500; sock_connected := true; behavior_finished := true |} in
  let r := {| data := None; value := Some (JString "http://a http://b") |} in
  ∃ b1 tr1,
    browse_page b64decode_rfc4648 "http://example/" true true true 0
      sched started_browser = (Running, b1, tr1)
    ∧ command_id b1 = 10
    ∧ (browse_page b64decode_rfc4648 "http://example/" true true true 0
         (sched ++ Tick tk :: WsMessage (Reply (Some (command_id b1)) r) false
                   :: Tick tk :: [])
         started_browser).1.1
      = Done (Some (list_to_set (split space "http://a http://b"))).
Proof.
  intros sched tk r.
  pose (v := browse_page b64decode_rfc4648 "http://example/" true true true 0
               sched started_browser).
  assert (browse_page b64decode_rfc4648 "http://example/" true true true 0
            sched started_browser = (Running, v.1.2, v.2)) as Hrun.
  { vm_compute. reflexivity. }
  exists v.1.2, v.2. split; [exact Hrun|]. split; [vm_compute; reflexivity|].
  assert (is_Some (_behavior v.1.2)) as Hb by (vm_compute; eauto).
  rewrite (outlinks_round b64decode_rfc4648 "http://example/" true true true 0
             sched started_browser v.1.2 v.2 tk tk r "http://a http://b" false []
             Hrun Hb eq_refl eq_refl eq_refl eq_refl eq_refl eq_refl eq_refl).
  reflexivity.
Defined.

(** X12, witness: the outlinks query is out, abort is asked for, and the
    next tick comes an hour after the start. *)
Lemma waiting_for_outlinks_witness :
  let sched :=
    [WsOpen; WsMessage Page_loadEventFired false;
     WsMessage (Reply (Some 8) {| data := Some (JString "UE5H"); value := None |}) false;
     Tick {| now := 500; sock_connected := true; behavior_finished := true |};
     AbortCall] in
  let late := {| now := 3600000; sock_connected := true; behavior_finished := true |} in
  ∃ b1 tr1,
    browse_page b64decode_rfc4648 "http://example/" true true true 0
      sched started_browser = (Running, b1, tr1)
    ∧ _abort_browse_page b1 = true
    ∧ browse_page b64decode_rfc4648 "http://example/" true true true 0
        (sched ++ (Tick <$> [late])) started_browser
      = (Running, b1, tr1).
Proof.
  intros sched late.
  pose (v := browse_page b64decode_rfc4648 "http://example/" true true true 0
               sched started_browser).
  assert (browse_page b64decode_rfc4648 "http://example/" true true true 0
            sched started_browser = (Running, v.1.2, v.2)) as Hrun.
  { vm_compute. reflexivity. }
  exists v.1.2, v.2. split; [exact Hrun|]. split; [vm_compute; reflexivity|].
  assert (is_Some (_behavior v.1.2)) as Hb by (vm_compute; eauto).
  assert (truthy_outlinks (_outlinks v.1.2) = false) as Ho by (vm_compute; reflexivity).
  assert (truthy_id (_waiting_on_outlinks_msg_id v.1.2) = true) as Hw
    by (vm_compute; reflexivity).
  assert (Forall (λ tk, sock_connected tk = true ∧ behavior_finished tk = true) [late])
    as Hl by (repeat constructor).
  exact (waiting_for_outlinks_ignores_timeout_and_abort b64decode_rfc4648
           "http://example/" true true true 0 sched started_browser v.1.2 v.2 [late]
           Hrun Hb Ho Hw Hl).
Defined.

(** X13, witness: the visit of the first scenario. *)
Lemma outlinks_query_at_most_once_witness :
  let sched := happy_path "http://a http://b http://a" ++ [last_tick] in
  1 ≤ command_id started_browser
  ∧ Forall (λ s, sends_outlinks_query s = false) sched
  ∧ (outlinks_queries
       (browse_page b64decode_rfc4648 "http://example/" true true true 0
          sched started_browser).2 ≤ 1)%nat.
Proof.
  intros sched.
  assert (1 ≤ command_id started_browser) as Hc by (vm_compute; discriminate).
  assert (Forall (λ s, sends_outlinks_query s = false) sched) as Hs
    by (repeat constructor).
  split; [exact Hc|]. split; [exact Hs|].
  destruct (outlinks_query_at_most_once b64decode_rfc4648 "http://example/"
              true true true 0 sched started_browser Hc Hs) as [H _].
  exact H.
Defined.

(** X24, witness: a browser as [start()] leaves it, and the same browser
    with the URL, the callbacks and the outlinks of an earlier visit. *)
Lemma visit_forgets_previous_visit_witness :
  let sched := happy_path "http://a http://b http://a" ++ [last_tick] in
  let b' := set_outlinks (Some {[ "http://old" ]})
              (reset_visit "http://old/" false false false started_browser) in
  is_Some (_websocket_url started_browser)
  ∧ same_between_visits started_browser b'
  ∧ browse_page b64decode_rfc4648 "http://example/" true true true 0 sched b'
    = browse_page b64decode_rfc4648 "http://example/" true true true 0 sched
        started_browser.
Proof.
  intros sched b'.
  assert (is_Some (_websocket_url started_browser)) as Hw by (vm_compute; eauto).
  assert (same_between_visits started_browser b') as Hs
    by (vm_compute; repeat split; reflexivity).
  split; [exact Hw|]. split; [exact Hs|].
  exact (visit_forgets_previous_visit b64decode_rfc4648 "http://example/"
           true true true 0 sched started_browser b' Hw Hs).
Defined.

End MoreExamples.

Section LifeExamples.
Import Chrome.

(** X14, witness: a browser that was started once and not stopped is
    started again; chrome becomes ready and exits at the first SIGTERM of
    [stop].  The directories of the second [start] are gone, and so is the
    working directory of the first. *)
Lemma start_stop_restores_directories_witness :
  let ready := [ {| url := Some "about:blank";
                    webSocketDebuggerUrl := Some "ws://localhost:9200/devtools/page/1" |} ] in
  let obs := (500, Some 0) :: replicate 600 (500, @None Z) in
  let fs : gset string :=
    {[ "/home/crawler"; "/tmp/tmpx"; "/tmp/tmpx/chrome-user-data" ]} in
  let started :=
    Browser.start None (Some "/tmp/tmpy") (Some 4243) 0 [(Some ready, 300)]
      started_browser in
  (∀ p, p ∈ fs → ¬ below "/tmp/tmpy" p)
  ∧ Forall (λ o, 500 ≤ o.1) obs
  ∧ (600 ≤ length obs)%nat
  ∧ Browser._work_dir started_browser = Some (Some "/tmp/tmpx")
  ∧ ∃ b2 tr, Browser.stop 5000 obs 9 started.1.2 = Done (b2, tr)
             ∧ fs_run (started.2 ++ tr) fs = {[ "/home/crawler" ]}.
Proof.
  intros ready obs fs started.
  assert (∀ p, p ∈ fs → ¬ below "/tmp/tmpy" p) as H0.
  { intros p Hp. unfold fs in Hp. rewrite !elem_of_union, !elem_of_singleton in Hp.
    destruct Hp as [[-> | ->] | ->]; decide_by_computation. }
  assert (Forall (λ o, 500 ≤ o.1) obs) as H1.
  { constructor; [simpl; lia|]. apply Forall_replicate. simpl. lia. }
  assert (600 ≤ length obs)%nat as H2.
  { unfold obs. rewrite length_cons, length_replicate. lia. }
  assert (Browser._work_dir started_browser = Some (Some "/tmp/tmpx")) as H3
    by (vm_compute; reflexivity).
  split; [exact H0|]. split; [exact H1|]. split; [exact H2|]. split; [exact H3|].
  destruct (start_stop_restores_directories started_browser None "/tmp/tmpy" 4243 0
              [(Some ready, 300)] 5000 obs 9 fs H0 H1 H2)
    as (b2 & tr & Hs & _ & _ & Hold & _).
  exists b2, tr. split; [exact Hs|].
  etransitivity; [exact (Hold "/tmp/tmpx" H3)|]. vm_compute. reflexivity.
Defined.

(** X15, witness: a started browser whose chrome exits at the first
    poll. *)
Lemma stop_is_idempotent_witness :
  ∃ b2 tr,
    Browser.stop 5000 [(500, Some 0)] 9 started_browser = Done (b2, tr)
    ∧ Browser.stop 6000 [] 9 b2 = Done (b2, []).
Proof.
  pose (r := Browser.stop 5000 [(500, Some 0)] 9 started_browser).
  destruct r as [[b2 tr]| |] eqn:E; [|vm_compute in E; discriminate..].
  exists b2, tr. split; [exact E|].
  destruct (stop_is_idempotent 5000 [(500, Some 0)] 9 started_browser b2 tr E)
    as [H _].
  apply H.
Defined.


(** X18, witness: chrome is alive at the first poll and gone at the
    second. *)
Lemma chrome_stop_on_exit_witness :
  let p := {| pid := 4242; returncode := None |} in
  let c := with_process p 0
             (__init__ 9200 "chromium-browser" "/tmp/tmpx"
                "/tmp/tmpx/chrome-user-data" None false) in
  chrome_process c = Some p
  ∧ Forall (λ o, 0 ≤ o.1 ∧ o.2 = None) [(500, @None Z)]
  ∧ slept_total [(500, @None Z)] < 300 * 1000
  ∧ ∃ c' tr, stop 0 ([(500, None)] ++ (500, Some 0) :: []) 9 c = Done (c', tr)
             ∧ chrome_process c' = Some {| pid := 4242; returncode := Some 0 |}
             ∧ (Signal 4242 SIGKILL ∉ tr).
Proof.
  intros p c.
  assert (Forall (λ o, 0 ≤ o.1 ∧ o.2 = None) [(500, @None Z)]) as H1.
  { repeat constructor. simpl. lia. }
  assert (slept_total [(500, @None Z)] < 300 * 1000) as H2 by (vm_compute; reflexivity).
  split; [reflexivity|]. split; [exact H1|]. split; [exact H2|].
  destruct (chrome_stop_on_exit c p 0 [(500, None)] 500 0 [] 9 eq_refl H1 H2)
    as (c' & tr & Hs & Hc & Hk & _).
  exists c', tr. split; [exact Hs|]. split; [exact Hc | exact Hk].
Defined.

(** X19, witness: chrome ignores every signal for five minutes. *)
Lemma chrome_stop_kills_after_timeout_witness :
  let p := {| pid := 4242; returncode := None |} in
  let c := with_process p 0
             (__init__ 9200 "chromium-browser" "/tmp/tmpx"
                "/tmp/tmpx/chrome-user-data" None false) in
  let obs := replicate 600 (500, @None Z) in
  chrome_process c = Some p
  ∧ Forall (λ o, 500 ≤ o.1 ∧ o.2 = None) obs
  ∧ (600 ≤ length obs)%nat
  ∧ ∃ c' tr0, stop 0 obs 9 c = Done (c', tr0 ++ [Signal 4242 SIGKILL; Wait 4242])
              ∧ chrome_process c' = Some {| pid := 4242; returncode := Some 9 |}.
Proof.
  intros p c obs.
  assert (Forall (λ o, 500 ≤ o.1 ∧ o.2 = None) obs) as H1.
  { apply Forall_replicate. split; [simpl; lia|done]. }
  assert (600 ≤ length obs)%nat as H2.
  { unfold obs. rewrite length_replicate. lia. }
  split; [reflexivity|]. split; [exact H1|]. split; [exact H2|].
  destruct (chrome_stop_kills_after_timeout c p 0 obs 9 eq_refl H1 H2)
    as (c' & tr0 & Hs & Hc & _).
  exists c', tr0. split; [exact Hs | exact Hc].
Defined.

(** X20, witness: the same stop. *)
Lemma chrome_stop_bounds_witness :
  let p := {| pid := 4242; returncode := None |} in
  let c := with_process p 0
             (__init__ 9200 "chromium-browser" "/tmp/tmpx"
                "/tmp/tmpx/chrome-user-data" None false) in
  let obs := [(500, @None Z); (500, Some 0)] in
  Forall (λ o, 500 ≤ o.1) obs
  ∧ ∃ c' tr, stop 0 obs 9 c = Done (c', tr)
             ∧ (length (filter (λ s, is_sigterm s = true) tr) ≤ 31)%nat.
Proof.
  intros p c obs.
  assert (Forall (λ o, 500 ≤ o.1) obs) as H1.
  { repeat constructor; simpl; lia. }
  split; [exact H1|].
  pose (r := stop 0 obs 9 c).
  destruct r as [[c' tr]| |] eqn:E; [|vm_compute in E; discriminate..].
  exists c', tr. split; [exact E|].
  destruct (chrome_stop_bounds c c' 0 obs 9 tr H1 E) as [_ H]. exact H.
Defined.

End LifeExamples.
